(** * pymochi: the deck cache, name/ID resolution and the card content split

    A shallow embedding of [pymochi.py], the Python client of the
    Mochi.cards REST API, and proofs about its deck cache.

    Conventions of the embedding.
    - A Python [str] is a [string]; one [ascii] stands for one code point
      (the range 0..255), not for one byte of an encoding.
    - The values read from a decoded JSON object are typed as the [Deck]
      constructor declares them: ['id'], ['_id'] and ['name'] hold a string
      or are absent/null ([dict.get] answers [None] for both).  The parent
      keys hold any JSON scalar, because the loader itself tests their type.
    - The deck cache is a Python [dict]; its iteration order is the order
      in which keys were first inserted, so it is an association list with
      unique keys.
    - Exceptions are values; an operation that can raise returns a [res].
      Operations that talk to the server or assign [self.decks] live in a
      small state-and-exception monad.
    - [print] calls that narrate progress are not modelled; the warnings of
      the loader are recorded as events. *)

From Stdlib Require Import String Ascii List ZArith Lia Bool Arith.
From Stdlib Require Import DecimalString Permutation.
Import ListNotations.

Local Open Scope list_scope.
Local Open Scope string_scope.

(* ===================================================================== *)
(** * Python built-ins on strings *)
(* ===================================================================== *)

Module PyStr.

(** The line feed, and the separator line between front and back of a card. *)
Definition LF : string := String (ascii_of_nat 10) EmptyString.
Definition SEP : string := LF ++ "---" ++ LF.

(** [str.isspace] on the code points below 256: TAB..CR, FS..US, SPACE,
    NEL (0x85) and NBSP (0xA0).  This is the set [str.strip()] removes. *)
Definition is_space (c : ascii) : bool :=
  let n := nat_of_ascii c in
  (((9 <=? n) && (n <=? 13)) || ((28 <=? n) && (n <=? 32))
   || (n =? 133) || (n =? 160))%nat.

(** [s.lstrip()] *)
Fixpoint lstrip (s : string) : string :=
  match s with
  | EmptyString => EmptyString
  | String c s' => if is_space c then lstrip s' else s
  end.

(** [s.rstrip()] *)
Fixpoint rstrip (s : string) : string :=
  match s with
  | EmptyString => EmptyString
  | String c s' =>
      match rstrip s' with
      | EmptyString => if is_space c then EmptyString else String c EmptyString
      | r => String c r
      end
  end.

(** [s.strip()] *)
Definition strip (s : string) : string := rstrip (lstrip s).

(** [Some r] when [s = p ++ r]: the test [s.startswith(p)] together with
    the rest of [s]. *)
Fixpoint after_prefix (p s : string) : option string :=
  match p, s with
  | EmptyString, _ => Some s
  | String a p', String b s' =>
      if Ascii.eqb a b then after_prefix p' s' else None
  | String _ _, EmptyString => None
  end.

(** The leftmost occurrence of [sep] in [s], as the text before it and
    the text after it. *)
Fixpoint find_split (sep s : string) : option (string * string) :=
  match after_prefix sep s with
  | Some rest => Some (EmptyString, rest)
  | None =>
      match s with
      | EmptyString => None
      | String c s' =>
          match find_split sep s' with
          | Some (a, b) => Some (String c a, b)
          | None => None
          end
      end
  end.

(** [s.split(sep, 1)]: at most one split, at the leftmost occurrence. *)
Definition split1 (sep s : string) : list string :=
  match find_split sep s with
  | Some (a, b) => [a; b]
  | None => [s]
  end.

(** [s.lstrip('/')] and [s.rstrip('/')], used to build request URLs. *)
Fixpoint lstrip_slash (s : string) : string :=
  match s with
  | String "/" s' => lstrip_slash s'
  | _ => s
  end.

Fixpoint rstrip_slash (s : string) : string :=
  match s with
  | EmptyString => EmptyString
  | String c s' =>
      match rstrip_slash s' with
      | EmptyString => if Ascii.eqb c "/" then EmptyString else String c EmptyString
      | r => String c r
      end
  end.

(** [needle in s] for strings. *)
Definition contains (needle s : string) : bool :=
  match find_split needle s with Some _ => true | None => false end.

(** [s[:n]] *)
Definition take (n : nat) (s : string) : string := substring 0 n s.

(** [str(n)] for a natural number and for an integer. *)
Definition str_nat (n : nat) : string := NilZero.string_of_uint (Nat.to_uint n).
Definition str_Z (z : Z) : string := NilZero.string_of_int (Z.to_int z).

(** ** [repr] of a string and of a list of strings *)

Definition hex_digit (n : nat) : ascii :=
  if (n <? 10)%nat then ascii_of_nat (48 + n) else ascii_of_nat (87 + n).

(** Code points [repr] writes as they are: printable ASCII, and in the
    upper half everything but the C1 controls, NBSP and the soft hyphen. *)
Definition is_printable (c : ascii) : bool :=
  let n := nat_of_ascii c in
  (((32 <=? n) && (n <? 127)) || ((161 <=? n) && negb (n =? 173)))%nat.

Definition backslash : ascii := ascii_of_nat 92.
Definition dquote : ascii := ascii_of_nat 34.
Definition squote : ascii := ascii_of_nat 39.

Definition repr_char (quote c : ascii) : string :=
  let n := nat_of_ascii c in
  if Ascii.eqb c quote || Ascii.eqb c backslash
  then String backslash (String c EmptyString)
  else if (n =? 9)%nat then String backslash "t"
  else if (n =? 10)%nat then String backslash "n"
  else if (n =? 13)%nat then String backslash "r"
  else if is_printable c then String c EmptyString
  else String backslash
         (String "x" (String (hex_digit (n / 16))
                        (String (hex_digit (n mod 16)) EmptyString))).

Fixpoint has_char (c : ascii) (s : string) : bool :=
  match s with
  | EmptyString => false
  | String d s' => Ascii.eqb c d || has_char c s'
  end.

Fixpoint repr_body (quote : ascii) (s : string) : string :=
  match s with
  | EmptyString => EmptyString
  | String c s' => repr_char quote c ++ repr_body quote s'
  end.

(** [repr(s)]: single quotes, unless [s] has a single quote and no
    double quote. *)
Definition repr (s : string) : string :=
  let quote : ascii :=
    if has_char squote s && negb (has_char dquote s) then dquote else squote in
  String quote (repr_body quote s ++ String quote EmptyString).

(** [", ".join(l)] *)
Fixpoint join_comma (l : list string) : string :=
  match l with
  | [] => EmptyString
  | [x] => x
  | x :: r => x ++ ", " ++ join_comma r
  end.

(** [repr(l)] for a list of strings, as an f-string renders [{l}]. *)
Definition repr_list (l : list string) : string :=
  "[" ++ join_comma (map repr l) ++ "]".

End PyStr.

Import PyStr.

(* ===================================================================== *)
(** * Data model *)
(* ===================================================================== *)

(** A JSON scalar as Python sees it after decoding. *)
Inductive pyval : Type :=
| PNone
| PBool (b : bool)
| PInt (z : Z)
| PStr (s : string).

(** Python truthiness, the test behind [or], [not] and [if]. *)
Definition truthy (v : pyval) : bool :=
  match v with
  | PNone => false
  | PBool b => b
  | PInt z => negb (z =? 0)%Z
  | PStr s => negb (s =? "")
  end.

(** [a or b] *)
Definition py_or (a b : pyval) : pyval := if truthy a then a else b.

(** Truthiness and [or] on an optional string ([None] or a [str]). *)
Definition str_truthy (o : option string) : bool :=
  match o with
  | Some s => negb (s =? "")
  | None => false
  end.

Definition or_str (a b : option string) : option string :=
  if str_truthy a then a else b.

(** [type(v).__name__] *)
Definition type_name (v : pyval) : string :=
  match v with
  | PNone => "NoneType"
  | PBool _ => "bool"
  | PInt _ => "int"
  | PStr _ => "str"
  end.

(** [class Deck]: the attributes [id], [name] and [parent_id].  The
    back-reference [api] is the client the deck methods are run against. *)
Record Deck : Type := mkDeck {
  id : string;
  name : string;
  parent_id : pyval
}.

(** A decoded JSON object, seen through the keys the client reads.
    [None] is what [dict.get] answers for an absent key or a null value;
    for ['content'] the two differ, because it is read with a default.

    Domain of the model: the values under ['id'], ['_id'] and ['name'] are
    strings, as [Deck.__init__] declares them.  The source does not test
    their type: a name that is a JSON array or object is unhashable and
    makes [deck_name in deck_map] (line 398) and [name not in self.decks]
    (line 483) raise [TypeError]; a name or id of another scalar type is
    stored as it is.  Objects with such values are outside the model, and
    every statement about a listing or a creation answer is a statement
    about answers whose ids and names are strings. *)
Record obj : Type := mkObj {
  k_id : option string;          (* 'id' *)
  k__id : option string;         (* '_id' *)
  k_name : option string;        (* 'name' *)
  k_parent_dash_id : pyval;      (* 'parent-id' *)
  k_parent_id : pyval;           (* 'parent_id' *)
  k_parent : pyval;              (* 'parent' *)
  k_content : option pyval;      (* 'content'; [None]: key absent *)
  k_errors : option string;      (* 'errors', as [str] renders its value *)
  k_message : option string      (* 'message', as [str] renders its value *)
}.

(** An object with none of these keys. *)
Definition no_fields : obj := mkObj None None None PNone PNone PNone None None None.

(** An element of a listing: a JSON object, or a value of another type,
    given by the name of its Python type. *)
Inductive elem : Type :=
| ENotDict (ty : string)
| EDict (o : obj).

(** The value under ['docs']. *)
Inductive docs_value : Type :=
| DocsList (l : list elem)
| DocsOther (ty : string).

(** A decoded response body, by the shapes the client tells apart. *)
Inductive json : Type :=
| JEmptyDict
| JDict (docs : option docs_value) (o : obj)     (* a non-empty dict *)
| JList (l : list elem)
| JOther (ty : string) (truth : bool).

(** What a [MochiAPIError] keeps in [response_data]. *)
Inductive rdata : Type :=
| RJson (j : json)
| RText (s : string).

(** ** Exceptions *)

Inductive exn : Type :=
| ValueError (msg : string)
| TypeError (msg : string)
| AttributeError (msg : string)
| MochiAPIError (msg : string) (status_code : option Z) (response_data : option rdata).

(** The Python class of an exception: what [except] clauses and callers
    can dispatch on. *)
Inductive exn_class : Type :=
| ClsValueError | ClsTypeError | ClsAttributeError | ClsMochiAPIError.

Definition class_of (e : exn) : exn_class :=
  match e with
  | ValueError _ => ClsValueError
  | TypeError _ => ClsTypeError
  | AttributeError _ => ClsAttributeError
  | MochiAPIError _ _ _ => ClsMochiAPIError
  end.

(** [e.status_code]: set by [MochiAPIError] only. *)
Definition status_code_of (e : exn) : option Z :=
  match e with
  | MochiAPIError _ c _ => c
  | _ => None
  end.

(** The outcome of a call: a value, or the exception raised. *)
Inductive res (A : Type) : Type :=
| Ok (a : A)
| Raise (e : exn).
Arguments Ok {A} a.
Arguments Raise {A} e.

(** ** The deck cache *)

(** A cache value: [Union[Deck, List[Deck]]]. *)
Inductive deck_or_list : Type :=
| ADeck (d : Deck)
| AList (l : list Deck).

(** [Dict[str, Union[Deck, List[Deck]]]], in insertion order. *)
Definition cache : Type := list (string * deck_or_list).

(** [m.get(k)] / [m[k]] *)
Fixpoint lookup (k : string) (m : cache) : option deck_or_list :=
  match m with
  | [] => None
  | (k', v) :: m' => if k =? k' then Some v else lookup k m'
  end.

(** [k in m] *)
Definition mem (k : string) (m : cache) : bool :=
  match lookup k m with Some _ => true | None => false end.

(** [m[k] = v]: an existing key keeps its position, a new key goes last. *)
Fixpoint assign (k : string) (v : deck_or_list) (m : cache) : cache :=
  match m with
  | [] => [(k, v)]
  | (k', v') :: m' => if k =? k' then (k', v) :: m' else (k', v') :: assign k v m'
  end.

(** [list(m.keys())] and [m.values()] *)
Definition keys (m : cache) : list string := map fst m.
Definition values (m : cache) : list deck_or_list := map snd m.

(** The decks of one cache value, in order. *)
Definition members (v : deck_or_list) : list Deck :=
  match v with
  | ADeck d => [d]
  | AList l => l
  end.

(** Lines 652-655 of [get_cards]: all cached decks, value by value. *)
Definition all_deck_objects (decks : cache) : list Deck :=
  flat_map members (values decks).

(** A warning printed by the loader loop. *)
Inductive warning : Type :=
| ReceivedDirectList
| SkippingInvalidEntry (deck_data : elem)
| NonStringParent (deck_id deck_name : option string) (parent_id : pyval)
| SkippingMissingIdOrName (deck_data : obj).

(** ** [MochiAPI._load_decks_internal], lines 377-408: the loop *)

Definition is_str (v : pyval) : bool :=
  match v with PStr _ => true | _ => false end.

Definition is_none (v : pyval) : bool :=
  match v with PNone => true | _ => false end.

(** Lines 398-406: file [deck_obj] under [deck_name]. *)
Definition file_deck (deck_name : string) (deck_obj : Deck) (deck_map : cache) : cache :=
  match lookup deck_name deck_map with
  | Some (ADeck existing) => assign deck_name (AList [existing; deck_obj]) deck_map
  | Some (AList existing) => assign deck_name (AList (existing ++ [deck_obj])%list) deck_map
  | None => assign deck_name (ADeck deck_obj) deck_map
  end.

(** The loop state: [deck_map], [count] and what was printed as warning. *)
Record load_state : Type := mkLoad {
  deck_map : cache;
  count : nat;
  warnings : list warning
}.

(** One iteration, lines 380-406. *)
Definition load_step (st : load_state) (deck_data : elem) : load_state :=
  match deck_data with
  | ENotDict _ =>
      mkLoad (deck_map st) (count st)
             (warnings st ++ [SkippingInvalidEntry deck_data])%list
  | EDict o =>
      let deck_id := or_str (k_id o) (k__id o) in
      let deck_name := k_name o in
      let parent_id := py_or (py_or (k_parent_dash_id o) (k_parent_id o)) (k_parent o) in
      let bad_parent := negb (is_none parent_id) && negb (is_str parent_id) in
      let out := if bad_parent
                 then (warnings st ++ [NonStringParent deck_id deck_name parent_id])%list
                 else warnings st in
      let parent_id := if bad_parent then PNone else parent_id in
      match deck_id, deck_name with
      | Some i, Some n =>
          if negb (str_truthy deck_id)
          then mkLoad (deck_map st) (count st) (out ++ [SkippingMissingIdOrName o])%list
          else
            let deck_obj := mkDeck i n parent_id in
            mkLoad (file_deck n deck_obj (deck_map st)) (S (count st)) out
      | _, _ =>
          mkLoad (deck_map st) (count st) (out ++ [SkippingMissingIdOrName o])%list
      end
  end.

Definition load_loop (decks_list : list elem) : load_state :=
  fold_left load_step decks_list (mkLoad [] 0 []).

(** ** Queries on the cache *)

(** [MochiAPI.get_decks(names_only=True)] *)
Definition get_deck_names (decks : cache) : list string := keys decks.

(** [MochiAPI.get_decks(names_only=False)]: one [{"name", "id"}] per deck. *)
Definition get_deck_infos (decks : cache) : list (string * string) :=
  flat_map (fun deck_or_list => map (fun d => (name d, id d)) (members deck_or_list))
           (values decks).

(** [MochiAPI.count_decks] *)
Definition count_decks (decks : cache) : nat :=
  fold_left (fun count item =>
               match item with
               | AList l => count + length l
               | ADeck _ => count + 1
               end) (values decks) 0.

(** The f-strings of the two [ValueError]s of [get_deck] (lines 485-489
    and 494-498) and of [get_cards] (lines 648 and 666-670), as functions
    of the values they interpolate. *)
Definition no_deck_with_name_msg (name : string) (all_deck_names : list string) : string :=
  "No deck found with name '" ++ name ++ "' in local cache. "
  ++ "Available names: " ++ repr_list all_deck_names ++ ". "
  ++ "Try client.refresh_decks()?".

Definition multiple_decks_msg (name : string) (deck_ids : list string) : string :=
  "Multiple decks found with name '" ++ name ++ "'. IDs: "
  ++ repr_list deck_ids ++ ". "
  ++ "Cannot uniquely identify by name. Access via get_decks(names_only=False) "
  ++ "and filter by ID, or use a unique name.".

Definition matches_multiple_msg (deck_name_or_id : string) (deck_ids : list string) : string :=
  "Input '" ++ deck_name_or_id ++ "' matches multiple decks by name. IDs: "
  ++ repr_list deck_ids ++ ". Use a specific ID.".

Definition no_deck_with_name_or_id_msg (deck_name_or_id : string)
           (names_checked ids_checked : nat) : string :=
  "No deck found with name or ID '" ++ deck_name_or_id ++ "' in cache. "
  ++ "Checked " ++ str_nat names_checked ++ " names, "
  ++ str_nat ids_checked ++ " IDs. "
  ++ "Try client.refresh_decks()?".

(** [MochiAPI.get_deck], lines 483-503.  A cache value is a [Deck] or a
    list, so the closing [TypeError] branch has no case here. *)
Definition get_deck (decks : cache) (name : string) : res Deck :=
  match lookup name decks with
  | None =>                                   (* name not in self.decks *)
      let all_deck_names := get_deck_names decks in
      Raise (ValueError (no_deck_with_name_msg name all_deck_names))
  | Some (AList l) =>
      let deck_ids := map id l in
      Raise (ValueError (multiple_decks_msg name deck_ids))
  | Some (ADeck d) => Ok d
  end.

(** How [get_cards] found the deck: the value of [resolved_by]. *)
Inductive resolved_by : Type := ByName | ById.

(** [MochiAPI.get_cards], lines 631-670: from the caller's name or ID to
    [target_deck_id] and [resolved_by], or the [ValueError] raised. *)
Definition resolve_target (decks : cache) (deck_name_or_id : string)
  : res (string * resolved_by) :=
  (* 1. by name *)
  match lookup deck_name_or_id decks with
  | Some (AList l) =>
      let deck_ids := map id l in
      Raise (ValueError (matches_multiple_msg deck_name_or_id deck_ids))
  | Some (ADeck d) => Ok (id d, ByName)
  | None =>
      (* 2. by ID *)
      match find (fun deck => id deck =? deck_name_or_id) (all_deck_objects decks) with
      | Some found_deck => Ok (id found_deck, ById)
      | None =>
          (* 3. nothing found *)
          let all_deck_names := get_deck_names decks in
          let all_deck_ids := map snd (get_deck_infos decks) in
          Raise (ValueError
                   (no_deck_with_name_or_id_msg deck_name_or_id
                      (length all_deck_names) (length all_deck_ids)))
      end
  end.

(** ** The condensed view of a card *)

(** The dict [{'front': ..., 'back': ...}]. *)
Record front_back : Type := mkFrontBack {
  front : string;
  back : string
}.

(** Lines 701-704 (and 87-90): split the content once and strip both parts. *)
Definition condensed_view (content_string : string) : front_back :=
  let parts := split1 SEP content_string in
  let front := if (0 <? length parts)%nat
               then strip (nth 0 parts EmptyString)
               else strip content_string in
  let back := if (1 <? length parts)%nat
              then strip (nth 1 parts EmptyString)
              else EmptyString in
  mkFrontBack front back.

(** Line 49 of [Deck.add_card] and line 115 of [Deck.update_card]. *)
Definition card_content (front back : string) : string :=
  front ++ LF ++ "---" ++ LF ++ back.

(** ** [Deck.get_children], lines 127-166 *)

(** Line 157: [deck_obj.parent_id == self.id]. *)
Definition is_child_of (this deck_obj : Deck) : bool :=
  match parent_id deck_obj with
  | PStr p => p =? id this
  | _ => false
  end.

(** Lines 146-158: the cached decks whose parent is [this], value by value. *)
Definition child_decks (decks : cache) (this : Deck) : list Deck :=
  flat_map (fun deck_or_list => filter (is_child_of this) (members deck_or_list))
           (values decks).

(** What [get_children] returns: deck objects, or their names. *)
Inductive children : Type :=
| ChildDecks (l : list Deck)
| ChildNames (l : list string).

Definition Deck_get_children (decks : cache) (this : Deck) (names_only : bool)
  : children :=
  let child_decks := child_decks decks this in
  if negb names_only then ChildDecks child_decks
  else ChildNames (map name child_decks).

(* ===================================================================== *)
(** * The transport and the client operations *)
(* ===================================================================== *)

(** ** What [requests] hands back *)

(** A [requests.Response], by what [_make_request] reads of it. *)
Record Response : Type := mkResponse {
  status_code : Z;
  content_type : string;        (* headers.get('Content-Type', '') *)
  text : string;                (* the body; [content] is empty when it is *)
  json_of : option json         (* response.json(); [None]: it raises *)
}.

(** [response.raise_for_status()] raises [HTTPError] for 4xx and 5xx. *)
Definition is_http_error (response : Response) : bool :=
  ((400 <=? status_code response) && (status_code response <? 600))%Z.

(** [Response.__bool__] is [Response.ok]: true unless [raise_for_status]
    would raise.  This is the test behind [if response]. *)
Definition Response_bool (response : Response) : bool :=
  negb (is_http_error response).

(** The ways [requests.request] can end. *)
Inductive outcome : Type :=
| Responded (response : Response)
| Timeout
| RequestException (req_err : string).     (* carries [str(req_err)] *)

(** The JSON body of a request: string keys and string values. *)
Definition payload : Type := list (string * string).

(** The remote service: [requests.request(method, url, auth=..., json=...)]
    answers and moves the server on. *)
Class Transport (server : Type) : Type := {
  requests_request :
    string -> string -> string * string -> option payload -> server -> outcome * server
}.

(** Renderings by Python built-ins of values whose text the model does not
    keep: [json.dumps(x, indent=2)] (or [str(x)] when that raises),
    [str(x)] of a decoded body, and [str(err)] of the error that
    [response.json()] raises for a body that is no JSON. *)
Class Render : Type := {
  json_dumps : rdata -> string;
  py_str : json -> string;
  json_error_str : string -> string
}.

Definition json_truthy (j : json) : bool :=
  match j with
  | JEmptyDict => false
  | JDict _ _ => true
  | JList l => match l with [] => false | _ => true end
  | JOther _ truth => truth
  end.

Definition rdata_truthy (r : option rdata) : bool :=
  match r with
  | None => false
  | Some (RJson j) => json_truthy j
  | Some (RText s) => negb (s =? "")
  end.

(** [f"{type(x)}"] *)
Definition class_repr (ty : string) : string := "<class '" ++ ty ++ "'>".

Definition type_repr (j : json) : string :=
  match j with
  | JEmptyDict | JDict _ _ => class_repr "dict"
  | JList _ => class_repr "list"
  | JOther ty _ => class_repr ty
  end.

(** Lines 522-524 of [create_deck]: the body of the creation request. *)
Definition create_deck_payload (name : string) (parent_id : option string) : payload :=
  match parent_id with
  | Some p => if str_truthy parent_id
              then [("name", name); ("parent-id", p)]
              else [("name", name)]
  | None => [("name", name)]
  end.

Section Client.

Context {server : Type} {T : Transport server} {R : Render}.

(** [MochiAPIError.__str__], lines 272-289. *)
Definition MochiAPIError_str (msg : string) (status_code : option Z)
           (response_data : option rdata) : string :=
  let base := msg in
  let base :=
    match status_code with
    | Some c => if (c =? 0)%Z then base
                else base ++ " (Status Code: " ++ str_Z c ++ ")"
    | None => base
    end in
  match response_data with
  | Some r =>
      if rdata_truthy response_data then
        let response_str := json_dumps r in
        let limit := 500%nat in
        let response_str :=
          if (limit <? String.length response_str)%nat
          then take limit response_str ++ "..."
          else response_str in
        base ++ LF ++ "API Response Snippet: " ++ response_str
      else base
  | None => base
  end.

(** [str(e)], what an f-string writes for [{e}]. *)
Definition str_exn (e : exn) : string :=
  match e with
  | MochiAPIError m c r => MochiAPIError_str m c r
  | ValueError m | TypeError m | AttributeError m => m
  end.

(** ** State and exceptions *)

(** The [MochiAPI] object. *)
Record MochiAPI : Type := mkMochiAPI {
  auth : string * string;
  decks : cache
}.

Definition base_url : string := "https://app.mochi.cards/api/".

(** The client object, the server, and the warnings printed so far. *)
Record state : Type := mkState {
  self : MochiAPI;
  net : server;
  out : list warning
}.

Definition M (A : Type) : Type := state -> res A * state.

Definition ret {A} (a : A) : M A := fun st => (Ok a, st).
Definition raise {A} (e : exn) : M A := fun st => (Raise e, st).
Definition bind {A B} (m : M A) (k : A -> M B) : M B :=
  fun st =>
    match m st with
    | (Ok a, st') => k a st'
    | (Raise e, st') => (Raise e, st')
    end.
(** [try: m  except ... as e: handler e] *)
Definition try_except {A} (m : M A) (handler : exn -> M A) : M A :=
  fun st =>
    match m st with
    | (Ok a, st') => (Ok a, st')
    | (Raise e, st') => handler e st'
    end.
Definition lift {A} (r : res A) : M A := fun st => (r, st).
Definition get_decks_attr : M cache := fun st => (Ok (decks (self st)), st).
Definition set_decks_attr (m : cache) : M unit :=
  fun st => (Ok tt, mkState (mkMochiAPI (auth (self st)) m) (net st) (out st)).
Definition print_warnings (w : list warning) : M unit :=
  fun st => (Ok tt, mkState (self st) (net st) (out st ++ w)%list).

Notation "x <- m ;; k" := (bind m (fun x => k))
  (at level 61, m at next level, right associativity).
Notation "m ;;; k" := (bind m (fun _ => k))
  (at level 61, right associativity).

(** ** [MochiAPI._make_request], lines 311-356 *)

(** Lines 332-349: the handler of [HTTPError]. *)
Definition http_error_to_exn (method url : string) (response : Response) : exn :=
  let status_code :=
    if Response_bool response then Some (status_code response) else None in
  let error_message := "HTTP Error calling " ++ method ++ " " ++ url in
  let '(response_data, error_message) :=
    if contains "application/json" (content_type response) then
      match json_of response with
      | Some j =>
          (Some j,
           match j with
           | JDict _ o =>
               match k_errors o, k_message o with
               | Some errors, _ => error_message ++ ": " ++ errors
               | None, Some message => error_message ++ ": " ++ message
               | None, None => error_message
               end
           | _ => error_message
           end)
      | None => (None, error_message ++ ": " ++ text response)
      end
    else (None, error_message ++ ": " ++ text response) in
  MochiAPIError error_message status_code
    (if Response_bool response
     then Some (match response_data with
                | Some j => if json_truthy j then RJson j else RText (text response)
                | None => RText (text response)
                end)
     else None).

Definition _make_request (method endpoint : string) (data : option payload) : M json :=
  fun st =>
    let url := rstrip_slash base_url ++ "/" ++ lstrip_slash endpoint in
    let '(o, net') := requests_request method url (auth (self st)) data (net st) in
    let st' := mkState (self st) net' (out st) in
    match o with
    | Responded response =>
        if is_http_error response then
          (Raise (http_error_to_exn method url response), st')
        else if (status_code response =? 204)%Z || (text response =? "") then
          (Ok JEmptyDict, st')
        else
          match json_of response with
          | Some j => (Ok j, st')
          | None =>
              (* [requests.exceptions.JSONDecodeError] is a
                 [RequestException] as well as a [ValueError]: the clause
                 of line 352 comes first and catches it. *)
              (Raise (MochiAPIError
                 ("Network or Request Error calling " ++ method ++ " " ++ url
                  ++ ": " ++ json_error_str (text response))
                 None None), st')
          end
    | Timeout =>
        (Raise (MochiAPIError
           ("Request timed out after ?s calling " ++ method ++ " " ++ url)
           None None), st')
    | RequestException req_err =>
        (Raise (MochiAPIError
           ("Network or Request Error calling " ++ method ++ " " ++ url
            ++ ": " ++ req_err) None None), st')
    end.

(** The handler pair that closes most operations:
    [except MochiAPIError as e: raise MochiAPIError(f"{ctx}{e}",
    e.status_code, e.response_data)] and
    [except Exception as e: raise MochiAPIError(f"{ctx_other}{e}")]. *)
Definition reraise {A} (ctx ctx_other : string) (e : exn) : M A :=
  match e with
  | MochiAPIError _ c r => raise (MochiAPIError (ctx ++ str_exn e) c r)
  | _ => raise (MochiAPIError (ctx_other ++ str_exn e) None None)
  end.

(** A lone [except MochiAPIError as e] clause: other exceptions pass. *)
Definition reraise_api {A} (ctx : string) (e : exn) : M A :=
  match e with
  | MochiAPIError _ c r => raise (MochiAPIError (ctx ++ str_exn e) c r)
  | _ => raise e
  end.

(** ** [MochiAPI._load_decks_internal], lines 358-408 *)

Definition _load_decks_internal : M cache :=
  response_data <-
    try_except (_make_request "GET" "decks" None)
      (reraise_api "Failed to load decks during initialization: ") ;;
  decks_list <-
    match response_data with
    | JDict (Some docs) _ => ret docs
    | JList l => print_warnings [ReceivedDirectList] ;;; ret (DocsList l)
    | _ =>
        raise (MochiAPIError
          ("Unexpected format when listing decks: Expected dict with 'docs', got "
           ++ type_repr response_data ++ ": "
           ++ take 200 (py_str response_data) ++ "...") None None)
    end ;;
  match decks_list with
  | DocsOther ty =>
      raise (MochiAPIError
        ("Expected 'docs' field to contain a list of decks, got " ++ class_repr ty)
        None None)
  | DocsList l =>
      let final := load_loop l in
      print_warnings (warnings final) ;;;
      ret (deck_map final)
  end.

(** [MochiAPI.refresh_decks], lines 410-418. *)
Definition refresh_decks : M unit :=
  new_decks <- _load_decks_internal ;;
  set_decks_attr new_decks.

(** [MochiAPI.__init__], lines 301-309: the constructed object, with the
    server and the warnings after the first load. *)
Definition MochiAPI_init (api_key : string) (net0 : server) : res MochiAPI * state :=
  let st0 := mkState (mkMochiAPI (api_key, EmptyString) []) net0 [] in
  if api_key =? "" then
    (Raise (ValueError "Mochi API key must be provided as a non-empty string."), st0)
  else
    match (new_decks <- _load_decks_internal ;; set_decks_attr new_decks) st0 with
    | (Ok _, st) => (Ok (self st), st)
    | (Raise e, st) => (Raise e, st)
    end.

(** ** Collection operations *)

(** [MochiAPI.create_deck], lines 505-561. *)
Definition create_deck (name : string) (parent_id : option string) : M Deck :=
  let payload := create_deck_payload name parent_id in
  try_except
    (created_deck_data <- _make_request "POST" "decks" (Some payload) ;;
     fields <-
       match created_deck_data with
       | JDict _ o => ret (Some o)
       | JEmptyDict => ret None
       | _ => raise (MochiAPIError "Expected dictionary for created deck"
                       None (Some (RJson created_deck_data)))
       end ;;
     let deck_id :=
       match fields with Some o => or_str (k_id o) (k__id o) | None => None end in
     let deck_name :=
       match fields with Some o => k_name o | None => None end in
     let deck_parent_id :=
       match fields with
       | Some o => py_or (py_or (k_parent_dash_id o) (k_parent_id o)) (k_parent o)
       | None => PNone
       end in
     match deck_id, deck_name with
     | Some i, Some n =>
         if negb (str_truthy deck_id) then
           raise (MochiAPIError "Created deck response missing 'id' or 'name'"
                    None (Some (RJson created_deck_data)))
         else
           refresh_decks ;;;
           try_except
             (cached <- get_decks_attr ;; lift (get_deck cached n))
             (fun e =>
                match e with
                | ValueError _ => ret (mkDeck i n deck_parent_id)
                | _ => raise e
                end)
     | _, _ =>
         raise (MochiAPIError "Created deck response missing 'id' or 'name'"
                  None (Some (RJson created_deck_data)))
     end)
    (reraise ("Failed to create deck '" ++ name ++ "': ")
             ("An unexpected error occurred while creating deck '" ++ name ++ "': ")).

(** [MochiAPI.delete_deck], lines 563-587. *)
Definition delete_deck (deck_id : string) : M unit :=
  try_except
    (_make_request "DELETE" ("decks/" ++ deck_id) None ;;;
     refresh_decks)
    (fun e =>
       match e with
       | MochiAPIError _ c r =>
           if match c with Some n => (n =? 404)%Z | None => false end then
             raise (MochiAPIError
               ("Failed to delete deck: No deck found with ID '" ++ deck_id
                ++ "' (Error 404)") c r)
           else
             raise (MochiAPIError
               ("Failed to delete deck ID '" ++ deck_id ++ "': " ++ str_exn e) c r)
       | _ =>
           raise (MochiAPIError
             ("An unexpected error occurred while deleting deck ID '" ++ deck_id
              ++ "': " ++ str_exn e) None None)
       end).

(** [Deck.delete_deck], lines 243-253. *)
Definition Deck_delete_deck (this : Deck) : M unit := delete_deck (id this).

(** ** Item operations *)

(** [MochiAPI.create_card], lines 591-608. *)
Definition create_card (deck_id content : string) : M json :=
  let data : payload := [("deck-id", deck_id); ("content", content)] in
  try_except
    (_make_request "POST" "cards" (Some data))
    (reraise ("Failed to create card in deck ID '" ++ deck_id ++ "': ")
             ("An unexpected error occurred creating card in deck ID '"
              ++ deck_id ++ "': ")).

(** [Deck.add_card], lines 35-51. *)
Definition Deck_add_card (this : Deck) (front back : string) : M json :=
  let content := card_content front back in
  create_card (id this) content.

(** [Deck.update_card], lines 101-125. *)
Definition Deck_update_card (card_id front back : string) : M json :=
  let new_content := card_content front back in
  let payload : payload := [("content", new_content)] in
  try_except
    (_make_request "POST" ("cards/" ++ card_id) (Some payload))
    (reraise ("Failed to update card '" ++ card_id ++ "': ")
             ("An unexpected error occurred while trying to update card '"
              ++ card_id ++ "': ")).

(** [Deck.delete_card], lines 205-241. *)
Definition Deck_delete_card (card_id : string) : M unit :=
  try_except
    (_make_request "DELETE" ("cards/" ++ card_id) None ;;;
     ret tt)
    (fun e =>
       match e with
       | MochiAPIError _ c r =>
           if match c with Some n => (n =? 404)%Z | None => false end then
             raise (MochiAPIError
               ("Failed to delete card: No card found with ID '" ++ card_id
                ++ "' (Error 404)") c r)
           else
             raise (MochiAPIError
               ("Failed to delete card ID '" ++ card_id ++ "': " ++ str_exn e) c r)
       | _ =>
           raise (MochiAPIError
             ("An unexpected error occurred while deleting card ID '" ++ card_id
              ++ "': " ++ str_exn e) None None)
       end).

(** What a card listing hands to the caller: the raw element, or the
    condensed dict. *)
Inductive card_view : Type :=
| RawCard (card_data : elem)
| CondensedCard (fb : front_back).

(** Lines 700-704 for one [card_data]: [card_data.get('content', '')],
    split and strip.  A value without [get], or a content without
    [split], raises [AttributeError]. *)
Definition condense_card (card_data : elem) : res front_back :=
  match card_data with
  | ENotDict ty =>
      Raise (AttributeError ("'" ++ ty ++ "' object has no attribute 'get'"))
  | EDict o =>
      match k_content o with
      | None => Ok (condensed_view EmptyString)
      | Some (PStr content_string) => Ok (condensed_view content_string)
      | Some v =>
          Raise (AttributeError
                   ("'" ++ type_name v ++ "' object has no attribute 'split'"))
      end
  end.

(** The loop of lines 698-705. *)
Fixpoint condense_all (raw_cards_list : list elem) : res (list card_view) :=
  match raw_cards_list with
  | [] => Ok []
  | card_data :: rest =>
      match condense_card card_data with
      | Raise e => Raise e
      | Ok fb =>
          match condense_all rest with
          | Raise e => Raise e
          | Ok l => Ok (CondensedCard fb :: l)
          end
      end
  end.

Definition resolved_by_str (r : resolved_by) : string :=
  match r with ByName => "name" | ById => "id" end.

(** [MochiAPI.get_cards], lines 610-712. *)
Definition get_cards (deck_name_or_id : string) (condensed : bool)
  : M (list card_view) :=
  cached <- get_decks_attr ;;
  target <- lift (resolve_target cached deck_name_or_id) ;;
  let '(target_deck_id, resolved_by) := target in
  let endpoint_with_param := "cards?deck-id=" ++ target_deck_id in
  let resolution_info :=
    "(resolved via " ++ resolved_by_str resolved_by ++ " to ID: "
    ++ target_deck_id ++ ")" in
  try_except
    (response_data <- _make_request "GET" endpoint_with_param None ;;
     match response_data with
     | JDict (Some (DocsOther _)) _ =>
         raise (MochiAPIError
           ("API response for cards in deck '" ++ deck_name_or_id ++ "' (ID: "
            ++ target_deck_id ++ ") had 'docs' but it wasn't a list.")
           None (Some (RJson response_data)))
     | JDict (Some (DocsList raw_cards_list)) _
     | JList raw_cards_list =>
         if negb condensed then ret (map RawCard raw_cards_list)
         else lift (condense_all raw_cards_list)
     | JEmptyDict => ret []
     | _ =>
         raise (MochiAPIError
           ("Unexpected response format listing cards for deck '"
            ++ deck_name_or_id ++ "' (ID: " ++ target_deck_id
            ++ "). Expected dict with 'docs'.")
           None (Some (RJson response_data)))
     end)
    (reraise ("Failed to get cards for deck '" ++ deck_name_or_id ++ "' "
              ++ resolution_info ++ ": ")
             ("An unexpected error occurred getting cards for deck '"
              ++ deck_name_or_id ++ "' " ++ resolution_info ++ ": ")).

(** [Deck.get_cards], lines 53-99. *)
Definition Deck_get_cards (this : Deck) (condensed : bool) : M (list card_view) :=
  try_except
    (raw_cards_list <- get_cards (id this) false ;;
     if condensed then
       (* a condensed dict would have no 'content' key *)
       lift (condense_all
               (map (fun v => match v with
                              | RawCard card_data => card_data
                              | CondensedCard _ => EDict no_fields
                              end) raw_cards_list))
     else ret raw_cards_list)
    (reraise ("Failed to get cards for deck '" ++ name this ++ "' (ID: "
              ++ id this ++ "): ")
             ("An unexpected error occurred while getting cards for deck '"
              ++ name this ++ "' (ID: " ++ id this ++ "): ")).

End Client.

(* ===================================================================== *)
(** * Vocabulary of the specification *)
(* ===================================================================== *)

(** ** Content strings *)

(** [sep] occurs in [c] with [pre] before it and [post] after it, and no
    occurrence of [sep] starts further left. *)
Definition first_split (sep c pre post : string) : Prop :=
  c = pre ++ sep ++ post /\
  forall pre' post', c = pre' ++ sep ++ post' ->
                     (String.length pre <= String.length pre')%nat.

(** [sep] does not occur in [c]. *)
Definition no_sep (sep c : string) : Prop :=
  forall pre post, c <> pre ++ sep ++ post.

Fixpoint all_space (s : string) : bool :=
  match s with
  | EmptyString => true
  | String c s' => is_space c && all_space s'
  end.

Definition head_char (s : string) : option ascii :=
  match s with
  | EmptyString => None
  | String c _ => Some c
  end.

Fixpoint last_char (s : string) : option ascii :=
  match s with
  | EmptyString => None
  | String c EmptyString => Some c
  | String _ s' => last_char s'
  end.

(** [t] neither starts nor ends with whitespace. *)
Definition edge_free (t : string) : Prop :=
  (forall c, head_char t = Some c -> is_space c = false) /\
  (forall c, last_char t = Some c -> is_space c = false).

(** [t] is [s] with the surrounding whitespace trimmed. *)
Definition trimmed_of (s t : string) : Prop :=
  (exists l r, s = l ++ t ++ r /\ all_space l = true /\ all_space r = true) /\
  edge_free t.

(** ** Listings and caches *)

(** The deck a listing entry stands for, when the loader accepts it: an
    object with a non-empty id under ['id'] or else ['_id'], and a name. *)
Definition entry_deck (e : elem) : option Deck :=
  match e with
  | ENotDict _ => None
  | EDict o =>
      match or_str (k_id o) (k__id o), k_name o with
      | Some i, Some n =>
          if i =? "" then None
          else
            let p := py_or (py_or (k_parent_dash_id o) (k_parent_id o)) (k_parent o) in
            Some (mkDeck i n (if is_str p then p else PNone))
      | _, _ => None
      end
  end.

(** The collections of a listing, in listing order. *)
Definition valid_decks (l : list elem) : list Deck :=
  flat_map (fun e => match entry_deck e with Some d => [d] | None => [] end) l.

(** The collections among [ds] that hold the name [n], in order. *)
Definition named (n : string) (ds : list Deck) : list Deck :=
  filter (fun d => name d =? n) ds.

(** What the cache holds for a name, given the collections holding it. *)
Definition group (ds : list Deck) : option deck_or_list :=
  match ds with
  | [] => None
  | [d] => Some (ADeck d)
  | _ => Some (AList ds)
  end.

(** The cache that filing the collections [ds] one by one builds. *)
Definition cache_of (ds : list Deck) : cache :=
  fold_left (fun m d => file_deck (name d) d m) ds [].

(** The cache invariant: keys are distinct, a value sits under the name of
    each of its decks, and a list value has at least two decks. *)
Definition cache_ok (m : cache) : Prop :=
  NoDup (keys m) /\
  forall k v, In (k, v) m ->
    (forall d, In d (members v) -> name d = k) /\
    match v with
    | ADeck _ => True
    | AList l => (2 <= length l)%nat
    end.

(** A warning that reports a skipped entry. *)
Definition is_skip (w : warning) : bool :=
  match w with
  | SkippingInvalidEntry _ | SkippingMissingIdOrName _ => true
  | _ => false
  end.

(** The strings of [l], each once, in the order of their first
    occurrence. *)
Definition first_seen (l : list string) : list string :=
  rev (nodup string_dec (rev l)).

(** The content string the condensed view of a listing element is taken
    from: the empty string when the object has no ['content'], nothing when
    the element is no object or its content is no string. *)
Definition card_text (e : elem) : option string :=
  match e with
  | ENotDict _ => None
  | EDict o =>
      match k_content o with
      | None => Some EmptyString
      | Some (PStr s) => Some s
      | Some _ => None
      end
  end.

(** The creation response holds a usable id and a name. *)
Definition creation_fields (j : json) : option (string * string * pyval) :=
  match j with
  | JDict _ o =>
      match or_str (k_id o) (k__id o), k_name o with
      | Some i, Some n =>
          if i =? "" then None
          else Some (i, n, py_or (py_or (k_parent_dash_id o) (k_parent_id o))
                                 (k_parent o))
      | _, _ => None
      end
  | _ => None
  end.

(** The operation left the client object and the printed warnings as they
    were. *)
Definition client_kept {server : Type} (st st' : @state server) : Prop :=
  self st' = self st /\ out st' = out st.

(** The outcome is a value, or a [MochiAPIError] without status code. *)
Definition api_error_only {A : Type} (r : res A) : Prop :=
  match r with
  | Ok _ => True
  | Raise e => class_of e = ClsMochiAPIError /\ status_code_of e = None
  end.

(** The list of entries a listing body holds, when the loader accepts its
    shape (lines 366-375): an object with a list under ['docs'], or a bare
    list. *)
Definition listing_of (j : json) : option (list elem) :=
  match j with
  | JDict (Some (DocsList l)) _ => Some l
  | JList l => Some l
  | _ => None
  end.

(** The state in which [MochiAPI.__init__] starts its first load. *)
Definition init_state {server : Type} (api_key : string) (net0 : server)
  : @state server :=
  mkState (mkMochiAPI (api_key, EmptyString) []) net0 [].

(** Line 313 of [_make_request]: the URL a request for [endpoint] goes to. *)
Definition request_url (endpoint : string) : string :=
  rstrip_slash base_url ++ "/" ++ lstrip_slash endpoint.

(** [n] slashes. *)
Fixpoint slashes (n : nat) : string :=
  match n with
  | O => EmptyString
  | S n' => String "/" (slashes n')
  end.

(** A card object with a content, and a card listing. *)
Definition card_entry (content : string) : elem :=
  EDict (mkObj None None None PNone PNone PNone (Some (PStr content)) None None).

Definition cards_response (l : list elem) : Response :=
  mkResponse 200 "application/json" "{...}"
             (Some (JDict (Some (DocsList l)) no_fields)).

(** A response without body. *)
Definition no_content_response : Response := mkResponse 204 "" "" None.

(** ** A scripted server *)

(** A server that answers the requests it receives with the outcomes of a
    script, one after the other, and times out once the script is over. *)
Definition script : Type := list outcome.

Definition scripted_request (method url : string) (auth : string * string)
           (data : option payload) (s : script) : outcome * script :=
  match s with
  | [] => (Timeout, [])
  | o :: s' => (o, s')
  end.

#[export] Instance scripted_transport : Transport script :=
  {| requests_request := scripted_request |}.

(** A rendering that keeps no detail of the body. *)
Definition opaque_render : Render :=
  {| json_dumps := fun _ => "...";
     py_str := fun _ => "...";
     json_error_str := fun _ => "..." |}.

(** The object [o] with another value under ['id']. *)
Definition with_id (v : option string) (o : obj) : obj :=
  mkObj v (k__id o) (k_name o) (k_parent_dash_id o) (k_parent_id o) (k_parent o)
        (k_content o) (k_errors o) (k_message o).

(** The state [st] with another cache in the client. *)
Definition with_decks {server : Type} (c : cache) (st : @state server) : @state server :=
  mkState (mkMochiAPI (auth (self st)) c) (net st) (out st).

(** An object with an id and a name. *)
Definition deck_entry (i n : string) : elem :=
  EDict (mkObj (Some i) None (Some n) PNone PNone PNone None None None).

Definition listing_response (l : list elem) : Response :=
  mkResponse 200 "application/json" "{...}"
             (Some (JDict (Some (DocsList l)) no_fields)).

(** Two collections that share a name. *)
Definition two_namesakes : list elem :=
  [deck_entry "id1" "Spanish"; deck_entry "id2" "Spanish"].

(** The answer to a creation request: the new collection's object. *)
Definition created_response (i n : string) : Response :=
  mkResponse 200 "application/json" "{...}"
             (Some (JDict None
                      (mkObj (Some i) None (Some n) PNone PNone PNone None None None))).

(** An HTTP 404 answer with a plain-text body. *)
Definition not_found_response : Response :=
  mkResponse 404 "text/plain" "Not Found" None.

(* ===================================================================== *)
(** * Facts about the string built-ins *)
(* ===================================================================== *)

Module StrFacts.

Lemma append_nil_r (s : string) : s ++ EmptyString = s.
Proof. induction s as [|c s IH]; simpl; [reflexivity | now rewrite IH]. Qed.

Lemma append_assoc (a b c : string) : (a ++ b) ++ c = a ++ (b ++ c).
Proof. induction a as [|x a IH]; simpl; [reflexivity | now rewrite IH]. Qed.

Lemma length_append (a b : string) :
  String.length (a ++ b) = (String.length a + String.length b)%nat.
Proof. induction a as [|x a IH]; simpl; [reflexivity | now rewrite IH]. Qed.

Lemma append_inv_head (a b c : string) : a ++ b = a ++ c -> b = c.
Proof.
  induction a as [|x a IH]; simpl; intros H; [exact H|].
  injection H as H. now apply IH.
Qed.

(** Two decompositions of one string with left parts of equal length
    are the same decomposition. *)
Lemma append_same_length (a a' b b' : string) :
  a ++ b = a' ++ b' -> String.length a = String.length a' -> a = a' /\ b = b'.
Proof.
  revert a'. induction a as [|x a IH]; intros [|x' a'] H L; simpl in *;
    try discriminate.
  - now split.
  - injection H as Hx H. injection L as L.
    destruct (IH a' H L) as [-> ->]. now subst.
Qed.

Lemma after_prefix_iff (p s r : string) :
  after_prefix p s = Some r <-> s = p ++ r.
Proof.
  revert s. induction p as [|a p IH]; intros s; simpl.
  - split; [intros [= ->]; reflexivity | intros ->; reflexivity].
  - destruct s as [|b s]; [split; discriminate|].
    destruct (Ascii.eqb_spec a b) as [->|N].
    + rewrite IH. split; [intros ->; reflexivity | intros [= ->]; reflexivity].
    + split; [discriminate | intros [= E _]; now subst].
Qed.

Lemma after_prefix_None (p s : string) :
  after_prefix p s = None -> forall r, s <> p ++ r.
Proof.
  intros H r E. apply after_prefix_iff in E. congruence.
Qed.

Lemma find_split_sound (sep s a b : string) :
  find_split sep s = Some (a, b) -> s = a ++ sep ++ b.
Proof.
  revert a b. induction s as [|c s IH]; intros a b; simpl.
  - destruct (after_prefix sep EmptyString) as [r|] eqn:E; [|discriminate].
    intros [= <- <-]. now apply after_prefix_iff in E.
  - destruct (after_prefix sep (String c s)) as [r|] eqn:E.
    + intros [= <- <-]. now apply after_prefix_iff in E.
    + destruct (find_split sep s) as [[a' b']|] eqn:F; [|discriminate].
      intros [= <- <-]. simpl. f_equal. now apply IH.
Qed.

Lemma find_split_least (sep s a b : string) :
  find_split sep s = Some (a, b) ->
  forall a' b', s = a' ++ sep ++ b' -> (String.length a <= String.length a')%nat.
Proof.
  revert a b. induction s as [|c s IH]; intros a b; simpl.
  - destruct (after_prefix sep EmptyString); [|discriminate].
    intros [= <- <-] a' b' _. simpl. lia.
  - destruct (after_prefix sep (String c s)) as [r|] eqn:E.
    + intros [= <- <-] a' b' _. simpl. lia.
    + destruct (find_split sep s) as [[a0 b0]|] eqn:F; [|discriminate].
      intros [= <- <-] a' b' H. destruct a' as [|x a'].
      * exfalso. simpl in H. exact (after_prefix_None _ _ E b' H).
      * simpl in H. injection H as _ H. simpl.
        specialize (IH a0 b0 eq_refl a' b' H). lia.
Qed.

Lemma find_split_None (sep s : string) :
  find_split sep s = None -> no_sep sep s.
Proof.
  induction s as [|c s IH]; simpl.
  - destruct (after_prefix sep EmptyString) eqn:E; [discriminate|].
    intros _ [|x pre] post H; simpl in H; [|discriminate].
    exact (after_prefix_None _ _ E post H).
  - destruct (after_prefix sep (String c s)) eqn:E; [discriminate|].
    destruct (find_split sep s) as [[a b]|] eqn:F; [discriminate|].
    intros _ [|x pre] post H; simpl in H.
    + exact (after_prefix_None _ _ E post H).
    + injection H as _ H. exact (IH eq_refl pre post H).
Qed.

(** [find_split] computes the first occurrence, and only that. *)
Lemma find_split_first (sep s pre post : string) :
  find_split sep s = Some (pre, post) -> first_split sep s pre post.
Proof.
  intros H. split; [now apply find_split_sound | now apply (find_split_least _ _ _ _ H)].
Qed.

Lemma first_split_find (sep s pre post : string) :
  first_split sep s pre post -> find_split sep s = Some (pre, post).
Proof.
  intros [E L]. destruct (find_split sep s) as [[a b]|] eqn:F.
  - pose proof (find_split_sound _ _ _ _ F) as Ea.
    pose proof (find_split_least _ _ _ _ F pre post E) as L1.
    pose proof (L a b Ea) as L2.
    assert (Hlen : String.length a = String.length pre) by lia.
    rewrite E in Ea.
    destruct (append_same_length a pre _ _ (eq_sym Ea) Hlen) as [-> Hb].
    apply append_inv_head in Hb. now subst.
  - exfalso. exact (find_split_None _ _ F pre post E).
Qed.

Lemma split_cases (sep s : string) :
  (exists pre post, first_split sep s pre post) \/ no_sep sep s.
Proof.
  destruct (find_split sep s) as [[a b]|] eqn:F.
  - left. exists a, b. now apply find_split_first.
  - right. now apply find_split_None.
Qed.

(** ** [strip] trims, and nothing else *)

Lemma lstrip_spec (s : string) :
  exists l, s = l ++ lstrip s /\ all_space l = true /\
            forall c, head_char (lstrip s) = Some c -> is_space c = false.
Proof.
  induction s as [|c s (l & E & A & H)]; simpl.
  - exists EmptyString. repeat split. discriminate.
  - destruct (is_space c) eqn:S.
    + exists (String c l). simpl. rewrite S, A. repeat split; [now f_equal | exact H].
    + exists EmptyString. simpl. repeat split. now intros c' [= <-].
Qed.

Lemma rstrip_spec (s : string) :
  exists r, s = rstrip s ++ r /\ all_space r = true /\
            forall c, last_char (rstrip s) = Some c -> is_space c = false.
Proof.
  induction s as [|c s (r & E & A & H)]; simpl.
  - exists EmptyString. repeat split. discriminate.
  - destruct (rstrip s) as [|d t] eqn:RS.
    + simpl in E. subst s. destruct (is_space c) eqn:S.
      * exists (String c r). simpl. rewrite S, A. repeat split. discriminate.
      * exists r. simpl. repeat split; [exact A | now intros c' [= <-]].
    + exists r. simpl. repeat split; [now f_equal | exact A | exact H].
Qed.

Lemma rstrip_head (s : string) (c : ascii) :
  head_char (rstrip s) = Some c -> head_char s = Some c.
Proof.
  destruct s as [|x s]; simpl; [discriminate|].
  destruct (rstrip s); [destruct (is_space x)|]; simpl; congruence.
Qed.

Lemma strip_trims (s : string) : trimmed_of s (strip s).
Proof.
  unfold strip.
  destruct (lstrip_spec s) as (l & El & Al & Hl).
  destruct (rstrip_spec (lstrip s)) as (r & Er & Ar & Hr).
  split; [|split].
  - exists l, r. repeat split; [|exact Al|exact Ar].
    rewrite <- Er. exact El.
  - intros c Hc. apply Hl. now apply rstrip_head.
  - exact Hr.
Qed.

(** ** The trimmed text is unique: it is what [strip] returns *)

Lemma lstrip_blank_app (l x : string) :
  all_space l = true -> lstrip (l ++ x) = lstrip x.
Proof.
  induction l as [|c l IH]; simpl; [reflexivity|].
  intros H. apply andb_true_iff in H as [Hc Hl]. now rewrite Hc, IH.
Qed.

Lemma lstrip_blank (r : string) : all_space r = true -> lstrip r = EmptyString.
Proof.
  induction r as [|c r IH]; simpl; [reflexivity|].
  intros H. apply andb_true_iff in H as [Hc Hr]. now rewrite Hc, IH.
Qed.

Lemma rstrip_blank (r : string) : all_space r = true -> rstrip r = EmptyString.
Proof.
  induction r as [|c r IH]; simpl; [reflexivity|].
  intros H. apply andb_true_iff in H as [Hc Hr]. now rewrite (IH Hr), Hc.
Qed.

Lemma rstrip_app_blank (t r : string) :
  all_space r = true -> rstrip (t ++ r) = rstrip t.
Proof.
  intros H. induction t as [|c t IH]; simpl; [now apply rstrip_blank|].
  now rewrite IH.
Qed.

Lemma rstrip_fixed (t : string) :
  (forall c, last_char t = Some c -> is_space c = false) -> rstrip t = t.
Proof.
  induction t as [|c t IH]; [reflexivity|]. intros H.
  destruct t as [|d t].
  - simpl. now rewrite (H c eq_refl).
  - change (rstrip (String c (String d t)))
      with (match rstrip (String d t) with
            | EmptyString => if is_space c then EmptyString else String c EmptyString
            | r => String c r
            end).
    rewrite IH; [reflexivity|]. intros c' Hc'. apply H. exact Hc'.
Qed.

Lemma trimmed_of_strip (s t : string) : trimmed_of s t -> t = strip s.
Proof.
  intros [(l & r & -> & Hl & Hr) [Hh Ht]]. unfold strip.
  rewrite (lstrip_blank_app _ _ Hl). destruct t as [|c t].
  - simpl. now rewrite (lstrip_blank _ Hr).
  - simpl. rewrite (Hh c eq_refl).
    change (String c (t ++ r)) with (String c t ++ r).
    rewrite (rstrip_app_blank _ _ Hr). symmetry. now apply rstrip_fixed.
Qed.

(** The shape of [condensed_view], by the outcome of the search. *)
Lemma condensed_view_found (c a b : string) :
  find_split SEP c = Some (a, b) ->
  condensed_view c = mkFrontBack (strip a) (strip b).
Proof. intros H. unfold condensed_view, split1. now rewrite H. Qed.

Lemma condensed_view_absent (c : string) :
  find_split SEP c = None ->
  condensed_view c = mkFrontBack (strip c) EmptyString.
Proof. intros H. unfold condensed_view, split1. now rewrite H. Qed.

(** A separator cannot start inside a text that has no line feed. *)
Lemma no_LF_first_split (f rest : string) :
  has_char (ascii_of_nat 10) f = false ->
  forall pre post, f ++ SEP ++ rest = pre ++ SEP ++ post ->
                   (String.length f <= String.length pre)%nat.
Proof.
  revert rest. induction f as [|x f IH]; intros rest Hf pre post E; simpl; [lia|].
  simpl in Hf. apply orb_false_elim in Hf as [Hx Hf].
  destruct pre as [|y pre].
  - simpl in E. injection E as E _. subst x. discriminate.
  - simpl in E. injection E as _ E. simpl.
    specialize (IH rest Hf pre post E). lia.
Qed.

End StrFacts.

(* ===================================================================== *)
(** * Facts about the cache *)
(* ===================================================================== *)

Module CacheFacts.

Lemma lookup_assign (n k : string) (v : deck_or_list) (m : cache) :
  lookup n (assign k v m) = if n =? k then Some v else lookup n m.
Proof.
  induction m as [|[k' v'] m IH]; simpl.
  - destruct (String.eqb_spec n k); reflexivity.
  - destruct (String.eqb_spec k k') as [->|N]; simpl.
    + destruct (String.eqb_spec n k'); reflexivity.
    + rewrite IH. destruct (String.eqb_spec n k') as [->|N'];
        [|reflexivity].
      destruct (String.eqb_spec k' k); [congruence | reflexivity].
Qed.

Lemma lookup_None_keys (k : string) (m : cache) :
  lookup k m = None <-> ~ In k (keys m).
Proof.
  induction m as [|[k' v'] m IH]; simpl; [tauto|].
  destruct (String.eqb_spec k k') as [->|N].
  - split; [discriminate | intros H; exfalso; apply H; now left].
  - rewrite IH. split; [intros H [E|I]; [congruence | tauto] | tauto].
Qed.

Lemma lookup_In (k : string) (v : deck_or_list) (m : cache) :
  lookup k m = Some v -> In (k, v) m.
Proof.
  induction m as [|[k' v'] m IH]; simpl; [discriminate|].
  destruct (String.eqb_spec k k') as [->|N].
  - intros [= ->]. now left.
  - intros H. right. now apply IH.
Qed.

Lemma In_lookup (k : string) (v : deck_or_list) (m : cache) :
  NoDup (keys m) -> In (k, v) m -> lookup k m = Some v.
Proof.
  induction m as [|[k' v'] m IH]; simpl; [tauto|].
  intros ND [E|I].
  - injection E as -> ->. now rewrite String.eqb_refl.
  - inversion ND as [|? ? Hk ND']; subst.
    destruct (String.eqb_spec k k') as [->|N]; [|now apply IH].
    exfalso. apply Hk. change k' with (fst (k', v)). now apply in_map.
Qed.

Lemma keys_assign (k : string) (v : deck_or_list) (m : cache) :
  keys (assign k v m) = if mem k m then keys m else (keys m ++ [k])%list.
Proof.
  unfold mem. induction m as [|[k' v'] m IH]; simpl; [reflexivity|].
  destruct (String.eqb_spec k k') as [->|N]; simpl; [reflexivity|].
  rewrite IH. now destruct (lookup k m).
Qed.

Lemma NoDup_keys_assign (k : string) (v : deck_or_list) (m : cache) :
  NoDup (keys m) -> NoDup (keys (assign k v m)).
Proof.
  intros ND. rewrite keys_assign. unfold mem.
  destruct (lookup k m) eqn:L; [exact ND|].
  apply lookup_None_keys in L.
  apply NoDup_rev in ND. rewrite <- (rev_involutive (keys m ++ [k])).
  apply NoDup_rev. rewrite rev_app_distr. simpl. constructor; [|exact ND].
  now rewrite <- in_rev.
Qed.

Lemma keys_file_deck (k : string) (d : Deck) (m : cache) :
  NoDup (keys m) -> NoDup (keys (file_deck k d m)).
Proof.
  intros ND. unfold file_deck.
  destruct (lookup k m) as [[e|l]|]; now apply NoDup_keys_assign.
Qed.

Lemma cache_of_snoc (ds : list Deck) (d : Deck) :
  cache_of (ds ++ [d]) = file_deck (name d) d (cache_of ds).
Proof. unfold cache_of. now rewrite fold_left_app. Qed.

Lemma NoDup_keys_cache_of (ds : list Deck) : NoDup (keys (cache_of ds)).
Proof.
  induction ds as [|d ds IH] using rev_ind; [constructor|].
  rewrite cache_of_snoc. now apply keys_file_deck.
Qed.

Lemma named_snoc (n : string) (ds : list Deck) (d : Deck) :
  named n (ds ++ [d]) = (named n ds ++ if name d =? n then [d] else [])%list.
Proof. unfold named. rewrite filter_app. simpl. now destruct (name d =? n). Qed.

(** The heart of the loader: what a name maps to is the group of the
    collections that hold it, in the order they were filed. *)
Lemma lookup_cache_of (ds : list Deck) (n : string) :
  lookup n (cache_of ds) = group (named n ds).
Proof.
  induction ds as [|d ds IH] using rev_ind; [reflexivity|].
  rewrite cache_of_snoc, named_snoc. unfold file_deck.
  destruct (String.eqb_spec n (name d)) as [->|N].
  - rewrite String.eqb_refl. rewrite IH.
    destruct (named (name d) ds) as [|a [|b r]]; simpl;
      rewrite lookup_assign, String.eqb_refl; reflexivity.
  - assert (E : (name d =? n) = false)
      by (apply String.eqb_neq; congruence).
    rewrite E, app_nil_r, <- IH.
    destruct (lookup (name d) (cache_of ds)) as [[e|l]|];
      rewrite lookup_assign; apply String.eqb_neq in N; now rewrite N.
Qed.

Lemma group_members (l : list Deck) (v : deck_or_list) :
  group l = Some v ->
  members v = l /\ match v with ADeck _ => True | AList l' => (2 <= length l')%nat end.
Proof.
  destruct l as [|a [|b r]]; simpl; [discriminate| |]; intros [= <-]; simpl;
    split; auto; lia.
Qed.

Lemma cache_of_ok (ds : list Deck) : cache_ok (cache_of ds).
Proof.
  split; [apply NoDup_keys_cache_of|].
  intros k v I. apply In_lookup in I; [|apply NoDup_keys_cache_of].
  rewrite lookup_cache_of in I. apply group_members in I as [Hm Hl].
  split; [|exact Hl]. intros d Hd. rewrite Hm in Hd.
  unfold named in Hd. apply filter_In in Hd as [_ Hd]. now apply String.eqb_eq.
Qed.

(** ** The decks of a cache, value by value *)

Lemma all_assign_new (k : string) (v : deck_or_list) (m : cache) :
  lookup k m = None ->
  all_deck_objects (assign k v m) = (all_deck_objects m ++ members v)%list.
Proof.
  unfold all_deck_objects, values.
  induction m as [|[k' v'] m IH]; simpl; [now rewrite app_nil_r|].
  destruct (String.eqb_spec k k') as [->|N]; [discriminate|].
  intros L. simpl. rewrite (IH L). now rewrite app_assoc.
Qed.

Lemma all_assign_old (k : string) (v v0 : deck_or_list) (m : cache) :
  lookup k m = Some v0 ->
  exists a b,
    all_deck_objects m = (a ++ members v0 ++ b)%list /\
    all_deck_objects (assign k v m) = (a ++ members v ++ b)%list.
Proof.
  unfold all_deck_objects, values.
  induction m as [|[k' v'] m IH]; simpl; [discriminate|].
  destruct (String.eqb_spec k k') as [->|N].
  - intros [= ->]. exists [], (flat_map members (map snd m)). now split.
  - intros L. destruct (IH L) as (a & b & E1 & E2).
    exists (members v' ++ a)%list, b. simpl. rewrite E1, E2.
    now rewrite <- !app_assoc.
Qed.

Lemma Permutation_insert_end (a x b : list Deck) (d : Deck) :
  Permutation (a ++ (x ++ [d]) ++ b) ((a ++ x ++ b) ++ [d]).
Proof.
  rewrite <- !app_assoc. apply Permutation_app_head, Permutation_app_head.
  apply Permutation_app_comm.
Qed.

Lemma all_file_deck (k : string) (d : Deck) (m : cache) :
  Permutation (all_deck_objects (file_deck k d m)) (all_deck_objects m ++ [d]).
Proof.
  unfold file_deck. destruct (lookup k m) as [[e|l]|] eqn:L.
  - destruct (all_assign_old k (AList [e; d]) _ m L) as (a & b & E1 & E2).
    rewrite E1, E2. exact (Permutation_insert_end a [e] b d).
  - destruct (all_assign_old k (AList (l ++ [d])) _ m L) as (a & b & E1 & E2).
    rewrite E1, E2. exact (Permutation_insert_end a l b d).
  - now rewrite (all_assign_new _ _ _ L).
Qed.

(** The cache holds the filed collections, each once. *)
Lemma all_cache_of (ds : list Deck) :
  Permutation (all_deck_objects (cache_of ds)) ds.
Proof.
  induction ds as [|d ds IH] using rev_ind; [constructor|].
  rewrite cache_of_snoc. etransitivity; [apply all_file_deck|].
  now apply Permutation_app_tail.
Qed.

Lemma count_decks_length (m : cache) :
  count_decks m = length (all_deck_objects m).
Proof.
  unfold count_decks, all_deck_objects.
  assert (G : forall vs acc,
             fold_left (fun count item =>
                          match item with
                          | AList l => count + length l
                          | ADeck _ => count + 1
                          end) vs acc
             = (acc + length (flat_map members vs))%nat).
  { induction vs as [|v vs IH]; intros acc; simpl; [lia|].
    rewrite IH, length_app. destruct v; simpl; lia. }
  now rewrite G.
Qed.

Lemma get_deck_infos_all (m : cache) :
  get_deck_infos m = map (fun d => (name d, id d)) (all_deck_objects m).
Proof.
  unfold get_deck_infos, all_deck_objects.
  induction (values m) as [|v vs IH]; simpl; [reflexivity|].
  now rewrite map_app, IH.
Qed.

Lemma cache_ok_tail (k : string) (v : deck_or_list) (m : cache) :
  cache_ok ((k, v) :: m) -> cache_ok m /\ lookup k m = None.
Proof.
  intros [ND H]. simpl in ND. inversion ND as [|? ? Hk ND']; subst.
  split; [split; [exact ND'|]|now apply lookup_None_keys].
  intros k' v' I. apply H. now right.
Qed.

(** In a cache that meets the invariant, the collections holding a name
    are the members of the value under that name. *)
Lemma named_all (m : cache) (s : string) :
  cache_ok m ->
  named s (all_deck_objects m)
  = match lookup s m with Some v => members v | None => [] end.
Proof.
  induction m as [|[k v] m IH]; intros OK; [reflexivity|].
  destruct (cache_ok_tail _ _ _ OK) as [OK' Lk].
  assert (Hv : forall d, In d (members v) -> name d = k)
    by (apply (proj2 OK k v); now left).
  change (all_deck_objects ((k, v) :: m))
    with (members v ++ all_deck_objects m)%list.
  unfold named. rewrite filter_app. fold (named s (all_deck_objects m)).
  rewrite (IH OK'). simpl.
  destruct (String.eqb_spec s k) as [->|N].
  - rewrite Lk, app_nil_r. apply forallb_filter_id.
    apply forallb_forall. intros d Hd. apply String.eqb_eq. now apply Hv.
  - replace (filter (fun d => name d =? s) (members v)) with (@nil Deck);
      [reflexivity|].
    symmetry. induction (members v) as [|d l IHl]; [reflexivity|]. simpl.
    assert (E : (name d =? s) = false).
    { apply String.eqb_neq. rewrite (Hv d) by now left. congruence. }
    rewrite E. apply IHl. intros d' Hd'. apply Hv. now right.
Qed.

(** ** The loader loop files the collections of the listing *)

Lemma load_step_deck_map (st : load_state) (e : elem) :
  deck_map (load_step st e)
  = match entry_deck e with
    | Some d => file_deck (name d) d (deck_map st)
    | None => deck_map st
    end.
Proof.
  destruct e as [ty|o]; [reflexivity|]. unfold load_step, entry_deck.
  destruct (or_str (k_id o) (k__id o)) as [i|]; [|reflexivity].
  destruct (k_name o) as [n|]; [|reflexivity]. simpl.
  destruct (i =? ""); simpl; [reflexivity|].
  now destruct (py_or (py_or (k_parent_dash_id o) (k_parent_id o)) (k_parent o)).
Qed.

Lemma load_step_count (st : load_state) (e : elem) :
  count (load_step st e)
  = match entry_deck e with Some _ => S (count st) | None => count st end.
Proof.
  destruct e as [ty|o]; [reflexivity|]. unfold load_step, entry_deck.
  destruct (or_str (k_id o) (k__id o)) as [i|]; [|reflexivity].
  destruct (k_name o) as [n|]; [|reflexivity]. simpl.
  now destruct (i =? "").
Qed.

Lemma fold_load_step (l : list elem) (st : load_state) :
  deck_map (fold_left load_step l st)
  = fold_left (fun m d => file_deck (name d) d m) (valid_decks l) (deck_map st).
Proof.
  revert st. induction l as [|e l IH]; intros st; [reflexivity|].
  simpl. rewrite IH, load_step_deck_map, fold_left_app.
  now destruct (entry_deck e).
Qed.

Lemma load_loop_cache_of (l : list elem) :
  deck_map (load_loop l) = cache_of (valid_decks l).
Proof. apply fold_load_step. Qed.

Lemma valid_decks_app (l1 l2 : list elem) :
  valid_decks (l1 ++ l2) = (valid_decks l1 ++ valid_decks l2)%list.
Proof. apply flat_map_app. Qed.

Lemma warnings_grow (l : list elem) (st : load_state) (w : warning) :
  In w (warnings st) -> In w (warnings (fold_left load_step l st)).
Proof.
  revert st. induction l as [|e l IH]; intros st I; [exact I|].
  simpl. apply IH. destruct e as [ty|o]; simpl.
  - apply in_or_app. now left.
  - set (p := py_or _ _).
    assert (I' : In w (if negb (is_none p) && negb (is_str p)
                       then (warnings st ++ [NonStringParent (or_str (k_id o) (k__id o)) (k_name o) p])%list
                       else warnings st))
      by (destruct (negb (is_none p) && negb (is_str p)); [apply in_or_app; now left | exact I]).
    destruct (or_str (k_id o) (k__id o)) as [i|]; [destruct (k_name o) as [n|]|];
      [destruct (negb (str_truthy (Some i)))| |]; simpl;
      try (apply in_or_app; now left); exact I'.
Qed.

End CacheFacts.

Module ResolveFacts.
Import CacheFacts.

(** In a cache that meets the invariant, a name maps to the group of the
    cached collections that hold it. *)
Lemma lookup_named (m : cache) (s : string) :
  cache_ok m -> lookup s m = group (named s (all_deck_objects m)).
Proof.
  intros OK. rewrite (named_all m s OK).
  destruct (lookup s m) as [v|] eqn:L; [|reflexivity].
  apply lookup_In in L. destruct (proj2 OK s v L) as [_ H].
  destruct v as [d|l]; [reflexivity|]. simpl in *.
  destruct l as [|a [|b r]]; simpl in H; try lia. reflexivity.
Qed.

Lemma find_id_found (ds : list Deck) (s : string) :
  (exists d, In d ds /\ id d = s) ->
  exists d, find (fun deck => id deck =? s) ds = Some d /\ In d ds /\ id d = s.
Proof.
  intros (d & I & E).
  destruct (find (fun deck => id deck =? s) ds) as [d'|] eqn:F.
  - exists d'. apply find_some in F as [I' E']. apply String.eqb_eq in E'. auto.
  - exfalso. pose proof (find_none _ _ F d I) as N. simpl in N.
    apply String.eqb_neq in N. contradiction.
Qed.

Lemma find_id_absent (ds : list Deck) (s : string) :
  (forall d, In d ds -> id d <> s) ->
  find (fun deck => id deck =? s) ds = None.
Proof.
  intros H. destruct (find (fun deck => id deck =? s) ds) as [d|] eqn:F;
    [|reflexivity].
  apply find_some in F as [I E]. apply String.eqb_eq in E.
  exfalso. exact (H d I E).
Qed.

Lemma ids_checked (m : cache) :
  length (map snd (get_deck_infos m)) = count_decks m.
Proof.
  now rewrite length_map, get_deck_infos_all, length_map, count_decks_length.
Qed.

(** Every cache the loader builds meets the invariant. *)
Lemma loaded_cache_ok (l : list elem) : cache_ok (deck_map (load_loop l)).
Proof. rewrite load_loop_cache_of. apply cache_of_ok. Qed.

End ResolveFacts.

(* ===================================================================== *)
(** * Facts about the client operations *)
(* ===================================================================== *)

Section ClientFacts.

Context {server : Type} {T : Transport server} {R : Render}.

Lemma http_error_without_status (method url : string) (response : Response) :
  is_http_error response = true ->
  exists msg, http_error_to_exn method url response = MochiAPIError msg None None.
Proof.
  intros H. unfold http_error_to_exn, Response_bool. rewrite H. simpl.
  destruct (contains "application/json" (content_type response));
    [destruct (json_of response)|]; eexists; reflexivity.
Qed.

(** A request touches the server only, and every exception it raises
    is a [MochiAPIError] without status code and response data. *)
Lemma make_request_frame (method endpoint : string) (data : option payload)
      (st : state) :
  exists r net',
    _make_request method endpoint data st = (r, mkState (self st) net' (out st)) /\
    match r with
    | Ok _ => True
    | Raise e => exists msg, e = MochiAPIError msg None None
    end.
Proof.
  unfold _make_request.
  destruct (requests_request method _ (auth (self st)) data (net st)) as [o net'].
  destruct o as [response| |req_err].
  - destruct (is_http_error response) eqn:H.
    + destruct (http_error_without_status method
                  (rstrip_slash base_url ++ "/" ++ lstrip_slash endpoint) response H)
        as [msg E].
      exists (Raise (MochiAPIError msg None None)), net'. rewrite E. eauto.
    + destruct ((status_code response =? 204)%Z || (text response =? ""));
        [eexists; eexists; split; [reflexivity|exact I]|].
      destruct (json_of response); eexists; eexists; split;
        try reflexivity; simpl; eauto.
  - eexists; eexists; split; [reflexivity|]. simpl. eauto.
  - eexists; eexists; split; [reflexivity|]. simpl. eauto.
Qed.

(** A request does not read the cache. *)
Lemma make_request_cache_blind (method endpoint : string) (data : option payload)
      (st : state) (c0 : cache) (r : res json) (net' : server) :
  _make_request method endpoint data st = (r, mkState (self st) net' (out st)) ->
  _make_request method endpoint data
                (with_decks c0 st)
  = (r, mkState (mkMochiAPI (auth (self st)) c0) net' (out st)).
Proof.
  unfold _make_request. simpl.
  destruct (requests_request method _ (auth (self st)) data (net st)) as [o n].
  destruct o as [response| |req_err].
  - destruct (is_http_error response); [now intros [= <- <-]|].
    destruct ((status_code response =? 204)%Z || (text response =? ""));
      [now intros [= <- <-]|].
    destruct (json_of response); now intros [= <- <-].
  - now intros [= <- <-].
  - now intros [= <- <-].
Qed.

(** The loader touches the server and the warnings only, does not read
    the cache, returns a cache built by the loop from a listing, and
    raises nothing but a [MochiAPIError] without status code. *)
Lemma load_cases (st : state) :
  exists r net' w,
    _load_decks_internal st = (r, mkState (self st) net' (out st ++ w)%list) /\
    match r with
    | Ok m => exists l, m = deck_map (load_loop l)
    | Raise e => exists msg, e = MochiAPIError msg None None
    end /\
    forall c0,
      _load_decks_internal (with_decks c0 st)
      = (r, mkState (mkMochiAPI (auth (self st)) c0) net' (out st ++ w)%list).
Proof.
  destruct (make_request_frame "GET" "decks" None st) as (r0 & net' & E & H).
  pose proof (fun c0 => make_request_cache_blind _ _ _ st c0 _ _ E) as B.
  unfold _load_decks_internal, bind, try_except.
  destruct r0 as [j|e].
  - destruct j as [|[[l|ty]|] o|l|ty truth].
    + exists (Raise (MochiAPIError
                ("Unexpected format when listing decks: Expected dict with 'docs', got "
                 ++ type_repr JEmptyDict ++ ": "
                 ++ take 200 (py_str JEmptyDict) ++ "...") None None)), net', [].
      rewrite app_nil_r. split; [now rewrite E|].
      split; [eauto|]. intros c0. now rewrite (B c0).
    + exists (Ok (deck_map (load_loop l))), net', (warnings (load_loop l)).
      split; [now rewrite E|]. split; [eauto|]. intros c0. now rewrite (B c0).
    + exists (Raise (MochiAPIError
                ("Expected 'docs' field to contain a list of decks, got "
                 ++ class_repr ty) None None)), net', [].
      rewrite app_nil_r. split; [now rewrite E|].
      split; [eauto|]. intros c0. now rewrite (B c0).
    + exists (Raise (MochiAPIError
                ("Unexpected format when listing decks: Expected dict with 'docs', got "
                 ++ type_repr (JDict None o) ++ ": "
                 ++ take 200 (py_str (JDict None o)) ++ "...") None None)), net', [].
      rewrite app_nil_r. split; [now rewrite E|].
      split; [eauto|]. intros c0. now rewrite (B c0).
    + exists (Ok (deck_map (load_loop l))), net',
             (ReceivedDirectList :: warnings (load_loop l)).
      split; [rewrite E; simpl; unfold print_warnings, ret; simpl;
              now rewrite <- app_assoc|].
      split; [eauto|]. intros c0. rewrite (B c0). simpl.
      unfold print_warnings, ret. simpl. now rewrite <- app_assoc.
    + exists (Raise (MochiAPIError
                ("Unexpected format when listing decks: Expected dict with 'docs', got "
                 ++ type_repr (JOther ty truth) ++ ": "
                 ++ take 200 (py_str (JOther ty truth)) ++ "...") None None)), net', [].
      rewrite app_nil_r. split; [now rewrite E|].
      split; [eauto|]. intros c0. now rewrite (B c0).
  - destruct H as [msg ->].
    exists (Raise (MochiAPIError
              ("Failed to load decks during initialization: "
               ++ str_exn (MochiAPIError msg None None)) None None)), net', [].
    rewrite app_nil_r. split; [now rewrite E|].
    split; [eauto|]. intros c0. now rewrite (B c0).
Qed.

(** [refresh_decks] assigns the loaded cache, or leaves the client as it
    was when the load raises. *)
Lemma refresh_cases (st : state) :
  exists r net' w,
    _load_decks_internal st = (r, mkState (self st) net' (out st ++ w)%list) /\
    match r with
    | Ok m =>
        (exists l, m = deck_map (load_loop l)) /\
        refresh_decks st
        = (Ok tt, mkState (mkMochiAPI (auth (self st)) m) net' (out st ++ w)%list)
    | Raise e =>
        (exists msg, e = MochiAPIError msg None None) /\
        refresh_decks st = (Raise e, mkState (self st) net' (out st ++ w)%list)
    end.
Proof.
  destruct (load_cases st) as (r & net' & w & E & H & _).
  exists r, net', w. split; [exact E|].
  unfold refresh_decks, bind. rewrite E.
  destruct r as [m|e]; split; auto.
Qed.

(** The loader returns the cache of the list the listing request
    returned, and raises when the request raises or returns another
    shape. *)
Lemma load_from_request (st : state) :
  match fst (_make_request "GET" "decks" None st) with
  | Ok j =>
      match listing_of j with
      | Some l => fst (_load_decks_internal st) = Ok (deck_map (load_loop l))
      | None =>
          exists msg,
            fst (_load_decks_internal st) = Raise (MochiAPIError msg None None)
      end
  | Raise _ =>
      exists msg, fst (_load_decks_internal st) = Raise (MochiAPIError msg None None)
  end.
Proof.
  destruct (make_request_frame "GET" "decks" None st) as (r0 & net' & E & H).
  unfold _load_decks_internal, bind, try_except. rewrite E. simpl.
  destruct r0 as [j|e].
  - destruct j as [|[[l|ty]|] o|l|ty truth]; simpl; eauto.
  - destruct H as [msg ->]. simpl. eauto.
Qed.

(** A successful refresh stores the cache of the list its request
    returned. *)
Lemma refresh_from_request (st st' : state) :
  refresh_decks st = (Ok tt, st') ->
  exists j l,
    fst (_make_request "GET" "decks" None st) = Ok j /\
    listing_of j = Some l /\
    decks (self st') = deck_map (load_loop l).
Proof.
  intros H. pose proof (load_from_request st) as L.
  unfold refresh_decks, bind in H.
  destruct (_load_decks_internal st) as [[m|e] st1] eqn:E; [|discriminate].
  injection H as <-. simpl in L.
  destruct (fst (_make_request "GET" "decks" None st)) as [j|e0] eqn:Q.
  - destruct (listing_of j) as [l|] eqn:S.
    + injection L as ->. exists j, l. auto.
    + destruct L as [msg L]. discriminate.
  - destruct L as [msg L]. discriminate.
Qed.

End ClientFacts.

(* ===================================================================== *)
(** * Resolution of a name or an ID *)
(* ===================================================================== *)

Section Resolution.

Context {server : Type} {T : Transport server} {R : Render}.

(** C1. In every cache state that meets the cache invariant, and for
    every input string [s], the resolution of [get_cards] goes in this
    order.  If exactly one cached collection holds the name [s], its id
    is the target, resolved by name.  If two or more hold the name [s],
    the operation raises at once, whatever the cached ids are: the error
    is the [ValueError] whose message lists the colliding ids, and no
    request is sent.  Otherwise the ids of all cached collections are
    scanned: if one equals [s], the target is [s], resolved by id; if
    none does, the operation raises the [ValueError] whose message says
    how many names and how many ids were checked, and no request is
    sent. *)
Theorem resolve_target_order (st : state) (s : string) :
  cache_ok (decks (self st)) ->
  let cached := decks (self st) in
  let holders := named s (all_deck_objects cached) in
  (forall d, holders = [d] -> resolve_target cached s = Ok (id d, ByName)) /\
  ((2 <= length holders)%nat ->
   resolve_target cached s
   = Raise (ValueError (matches_multiple_msg s (map id holders))) /\
   forall condensed,
     get_cards s condensed st
     = (Raise (ValueError (matches_multiple_msg s (map id holders))), st)) /\
  (holders = [] ->
   ((exists d, In d (all_deck_objects cached) /\ id d = s) ->
    resolve_target cached s = Ok (s, ById)) /\
   ((forall d, In d (all_deck_objects cached) -> id d <> s) ->
    resolve_target cached s
    = Raise (ValueError
               (no_deck_with_name_or_id_msg s (length (get_deck_names cached))
                                            (count_decks cached))) /\
    forall condensed,
      get_cards s condensed st
      = (Raise (ValueError
                  (no_deck_with_name_or_id_msg s (length (get_deck_names cached))
                                               (count_decks cached))), st))).
Proof.
  intros OK cached holders.
  pose proof (ResolveFacts.lookup_named cached s OK) as L.
  fold holders in L.
  assert (G : forall condensed e,
             resolve_target cached s = Raise e ->
             get_cards s condensed st = (Raise e, st)).
  { intros condensed e H. unfold get_cards, bind, get_decks_attr, lift.
    fold cached. now rewrite H. }
  unfold resolve_target at 1 2 3 4. rewrite L.
  split; [|split].
  - intros d ->. reflexivity.
  - intros H2. destruct holders as [|a [|b r]] eqn:Eh; simpl in H2; try lia.
    assert (E : resolve_target cached s
                = Raise (ValueError (matches_multiple_msg s (map id (a :: b :: r))))).
    { unfold resolve_target. rewrite L. reflexivity. }
    split; [reflexivity|]. intros condensed. now apply G.
  - intros ->. simpl. split.
    + intros H. destruct (ResolveFacts.find_id_found _ _ H) as (d & F & _ & E).
      rewrite F. now rewrite E.
    + intros H. rewrite (ResolveFacts.find_id_absent _ _ H).
      rewrite ResolveFacts.ids_checked.
      split; [reflexivity|]. intros condensed. apply G.
      unfold resolve_target. rewrite L. simpl.
      rewrite (ResolveFacts.find_id_absent _ _ H).
      now rewrite ResolveFacts.ids_checked.
Qed.

End Resolution.

(** The order at work: "Spanish" names two cached collections, so the
    resolution raises with both ids. *)
Lemma resolve_target_order_witness :
  resolve_target (deck_map (load_loop two_namesakes)) "Spanish"
  = Raise (ValueError (matches_multiple_msg "Spanish" ["id1"; "id2"])).
Proof.
  exact (proj1 (proj1 (proj2
           (@resolve_target_order script scripted_transport opaque_render
              (mkState (mkMochiAPI ("key", EmptyString)
                                   (deck_map (load_loop two_namesakes))) [] [])
              "Spanish"
              (ResolveFacts.loaded_cache_ok two_namesakes)))
           (le_n 2))).
Defined.

(** C3, as stated, fails: with two collections named "Spanish" in the
    cache, looking up "Spanish" and looking up the absent "French" raise
    exceptions of one and the same class, [ValueError], and so do the two
    resolutions; the colliding ids are in the message text. *)
Lemma ambiguity_shares_the_not_found_class :
  let cached := deck_map (load_loop two_namesakes) in
  get_deck cached "Spanish"
  = Raise (ValueError (multiple_decks_msg "Spanish" ["id1"; "id2"])) /\
  get_deck cached "French"
  = Raise (ValueError (no_deck_with_name_msg "French" ["Spanish"])) /\
  resolve_target cached "Spanish"
  = Raise (ValueError (matches_multiple_msg "Spanish" ["id1"; "id2"])) /\
  resolve_target cached "French"
  = Raise (ValueError (no_deck_with_name_or_id_msg "French" 1 2)) /\
  class_of (ValueError (multiple_decks_msg "Spanish" ["id1"; "id2"]))
  = class_of (ValueError (no_deck_with_name_msg "French" ["Spanish"])).
Proof. repeat split. Qed.

(** C3, amended.  In every cache state that meets the cache invariant and
    in which two or more collections hold a name, looking that name up and
    resolving it both raise a [ValueError], the class that an absent name
    raises too; the message of each lists the ids of the collections that
    hold the name, in cache order, as Python renders a list of strings.
    Looking up an absent name raises the [ValueError] whose message lists
    the cached names.  The two failures differ by their message only. *)
Theorem ambiguity_error_message (cached : cache) (n : string) :
  cache_ok cached ->
  let holders := named n (all_deck_objects cached) in
  ((2 <= length holders)%nat ->
   get_deck cached n = Raise (ValueError (multiple_decks_msg n (map id holders))) /\
   resolve_target cached n
   = Raise (ValueError (matches_multiple_msg n (map id holders)))) /\
  (holders = [] ->
   get_deck cached n
   = Raise (ValueError (no_deck_with_name_msg n (get_deck_names cached)))) /\
  (forall e, get_deck cached n = Raise e -> class_of e = ClsValueError).
Proof.
  intros OK holders.
  pose proof (ResolveFacts.lookup_named cached n OK) as L. fold holders in L.
  unfold get_deck, resolve_target. rewrite L.
  split; [|split].
  - intros H2. destruct holders as [|a [|b r]]; simpl in H2; try lia.
    split; reflexivity.
  - intros ->. reflexivity.
  - intros e. destruct (group holders) as [[d|l]|]; intros [= <-]; reflexivity.
Qed.

(** The amended statement at the cache with two collections named
    "Spanish". *)
Lemma ambiguity_error_message_witness :
  get_deck (deck_map (load_loop two_namesakes)) "Spanish"
  = Raise (ValueError (multiple_decks_msg "Spanish" ["id1"; "id2"])).
Proof.
  exact (proj1 (proj1
           (ambiguity_error_message (deck_map (load_loop two_namesakes)) "Spanish"
              (ResolveFacts.loaded_cache_ok two_namesakes))
           (le_n 2))).
Defined.

(* ===================================================================== *)
(** * The cache after a load *)
(* ===================================================================== *)

Section Loading.

Context {server : Type} {T : Transport server} {R : Render}.

(** C2. After every successful cache load, at construction or by
    [refresh_decks] (which the mutating operations call), the listing
    request returned a list of entries, under ['docs'] or bare, and the
    cache is the one the loader loop builds from that very list.  For
    every list that cache satisfies: every collection of the listing is
    cached under its own name; a name held by exactly one collection maps
    to that collection; a name held by two or more maps to the list of all
    of them in listing order; no collection sits under another key, keys
    are distinct, and the cache holds the collections of the listing, each
    once and nothing else. *)
Theorem loaded_cache_invariant :
  (forall (st st' : state),
      refresh_decks st = (Ok tt, st') ->
      exists j l,
        fst (_make_request "GET" "decks" None st) = Ok j /\
        listing_of j = Some l /\
        decks (self st') = deck_map (load_loop l)) /\
  (forall api_key net0 api st',
      MochiAPI_init api_key net0 = (Ok api, st') ->
      exists j l,
        fst (_make_request "GET" "decks" None (init_state api_key net0)) = Ok j /\
        listing_of j = Some l /\
        decks api = deck_map (load_loop l)) /\
  (forall l : list elem,
      let m := deck_map (load_loop l) in
      let ds := valid_decks l in
      (forall d, In d ds ->
                 exists v, lookup (name d) m = Some v /\ In d (members v)) /\
      (forall n d, named n ds = [d] -> lookup n m = Some (ADeck d)) /\
      (forall n, (2 <= length (named n ds))%nat ->
                 lookup n m = Some (AList (named n ds))) /\
      (forall k v d, In (k, v) m -> In d (members v) -> name d = k /\ In d ds) /\
      NoDup (keys m) /\
      Permutation (all_deck_objects m) ds).
Proof.
  split; [|split].
  - intros st st' H. now apply refresh_from_request.
  - intros api_key net0 api st' H. unfold MochiAPI_init in H.
    destruct (api_key =? ""); [discriminate|].
    fold (@refresh_decks server T R) in H.
    fold (init_state api_key net0) in H.
    destruct (refresh_decks (init_state api_key net0)) as [[u|e] st1] eqn:E;
      [|discriminate].
    injection H as <- _. destruct u. now apply refresh_from_request.
  - intros l m ds. subst m ds. rewrite CacheFacts.load_loop_cache_of.
    set (ds := valid_decks l).
    assert (Hgroup : forall n v, lookup n (cache_of ds) = Some v ->
                                 members v = named n ds).
    { intros n v H. rewrite CacheFacts.lookup_cache_of in H.
      now apply CacheFacts.group_members in H as [-> _]. }
    split; [|split; [|split; [|split; [|split]]]].
    + intros d I.
      assert (In d (named (name d) ds))
        by (apply filter_In; split; [exact I | apply String.eqb_refl]).
      rewrite CacheFacts.lookup_cache_of.
      destruct (named (name d) ds) as [|a [|b r]] eqn:E; [contradiction| |];
        eexists; (split; [reflexivity|]); exact H.
    + intros n d E. now rewrite CacheFacts.lookup_cache_of, E.
    + intros n H. rewrite CacheFacts.lookup_cache_of.
      destruct (named n ds) as [|a [|b r]]; simpl in H; try lia. reflexivity.
    + intros k v d I Hd.
      apply CacheFacts.In_lookup in I; [|apply CacheFacts.NoDup_keys_cache_of].
      rewrite (Hgroup _ _ I) in Hd. apply filter_In in Hd as [I' E].
      split; [now apply String.eqb_eq | exact I'].
    + apply CacheFacts.NoDup_keys_cache_of.
    + apply CacheFacts.all_cache_of.
Qed.

End Loading.

(** A refresh answered by the listing of two namesakes: the cache holds
    both under their name, in listing order. *)
Lemma loaded_cache_invariant_witness :
  lookup "Spanish"
    (decks (self (snd (@refresh_decks script scripted_transport opaque_render
                         (mkState (mkMochiAPI ("key", EmptyString) [])
                                  [Responded (listing_response two_namesakes)] [])))))
  = Some (AList [mkDeck "id1" "Spanish" PNone; mkDeck "id2" "Spanish" PNone]).
Proof.
  destruct (proj1 (@loaded_cache_invariant script scripted_transport opaque_render)
                  (mkState (mkMochiAPI ("key", EmptyString) [])
                           [Responded (listing_response two_namesakes)] [])
                  _ eq_refl) as (j & l & Hj & Hl & Hd).
  injection Hj as <-. injection Hl as <-.
  refine (eq_trans (f_equal (lookup "Spanish") Hd) _).
  exact (proj1 (proj2 (proj2
           (proj2 (proj2 (@loaded_cache_invariant script scripted_transport
                            opaque_render)) two_namesakes)))
           "Spanish" (le_n 2)).
Defined.

(* ===================================================================== *)
(** * Malformed listing entries *)
(* ===================================================================== *)

Section Skipping.

Context {server : Type} {T : Transport server} {R : Render}.

(** C5. For every listing, an entry in which the loader finds no id (no
    non-empty string under ['id'] or ['_id']) or no name is skipped with
    a warning and the load goes on: the cache is the one the listing
    without that entry gives, so the entry is not in it, and the results
    of [count_decks] and [get_decks(names_only=False)] are those of the
    remaining entries; the count is the number of valid entries.  A load
    whose request is answered by such a listing returns the cache; it
    does not raise. *)
Theorem malformed_entry_skipped (l1 l2 : list elem) (o : obj) :
  str_truthy (or_str (k_id o) (k__id o)) = false \/ k_name o = None ->
  let with_it := load_loop (l1 ++ EDict o :: l2) in
  let without := load_loop (l1 ++ l2) in
  deck_map with_it = deck_map without /\
  count_decks (deck_map with_it) = count_decks (deck_map without) /\
  get_deck_infos (deck_map with_it) = get_deck_infos (deck_map without) /\
  count_decks (deck_map with_it) = length (valid_decks (l1 ++ l2)) /\
  (forall d, In d (all_deck_objects (deck_map with_it)) ->
             In d (valid_decks (l1 ++ l2))) /\
  In (SkippingMissingIdOrName o) (warnings with_it) /\
  (forall (st st1 : state) fields,
      _make_request "GET" "decks" None st
      = (Ok (JDict (Some (DocsList (l1 ++ EDict o :: l2))) fields), st1) ->
      exists st2, _load_decks_internal st = (Ok (deck_map without), st2)).
Proof.
  intros H with_it without.
  assert (Hnone : entry_deck (EDict o) = None).
  { unfold entry_deck. destruct H as [H|H].
    - destruct (or_str (k_id o) (k__id o)) as [i|]; [|reflexivity].
      simpl in H. apply negb_false_iff in H. rewrite H.
      now destruct (k_name o).
    - rewrite H. now destruct (or_str (k_id o) (k__id o)). }
  assert (E : deck_map with_it = deck_map without).
  { subst with_it without. rewrite !CacheFacts.load_loop_cache_of.
    f_equal. rewrite !CacheFacts.valid_decks_app. f_equal.
    change (valid_decks (EDict o :: l2))
      with ((match entry_deck (EDict o) with Some d => [d] | None => [] end)
              ++ valid_decks l2)%list.
    now rewrite Hnone. }
  split; [exact E|]. rewrite E.
  split; [reflexivity|]. split; [reflexivity|].
  assert (P : Permutation (all_deck_objects (deck_map without))
                          (valid_decks (l1 ++ l2))).
  { subst without. rewrite CacheFacts.load_loop_cache_of.
    apply CacheFacts.all_cache_of. }
  split; [|split; [|split]].
  - rewrite CacheFacts.count_decks_length. now apply Permutation_length.
  - intros d. now apply Permutation_in.
  - subst with_it. unfold load_loop. rewrite fold_left_app. simpl.
    apply CacheFacts.warnings_grow.
    set (st := fold_left load_step l1 _).
    unfold load_step. unfold entry_deck in Hnone.
    set (p := py_or _ _) in *.
    destruct (or_str (k_id o) (k__id o)) as [i|];
      [destruct (k_name o) as [n|]|].
    + simpl. destruct (i =? ""); [|discriminate]. simpl.
      apply in_or_app. right. now left.
    + apply in_or_app. right. now left.
    + apply in_or_app. right. now left.
  - intros st st1 fields Hreq. unfold _load_decks_internal, bind, try_except.
    rewrite Hreq. simpl. unfold print_warnings, ret. simpl.
    fold with_it. rewrite E. eexists. reflexivity.
Qed.

End Skipping.

(** An entry with a name and no id, between two valid entries. *)
Lemma malformed_entry_skipped_witness :
  deck_map (load_loop ([deck_entry "id1" "Spanish"]
                       ++ EDict (mkObj None None (Some "Orphan")
                                       PNone PNone PNone None None None)
                       :: [deck_entry "id2" "French"]))
  = deck_map (load_loop ([deck_entry "id1" "Spanish"] ++ [deck_entry "id2" "French"])).
Proof.
  exact (proj1 (@malformed_entry_skipped script scripted_transport opaque_render
                  [deck_entry "id1" "Spanish"] [deck_entry "id2" "French"]
                  (mkObj None None (Some "Orphan") PNone PNone PNone None None None)
                  (or_introl eq_refl))).
Defined.

(** C10. During cache loading, an entry whose name is the empty string
    and whose id is usable is accepted: its collection is cached under the
    key "" and, when it is the only one of that name, [get_deck("")]
    returns it.  An entry whose ['id'] is the empty string is treated
    exactly as the same entry without ['id']: the loader turns to ['_id'],
    and skips the entry whenever it ends without a non-empty id, which is
    the case when ['id'] is empty and ['_id'] gives nothing.  Consequently
    no cached collection has an empty id. *)
Theorem empty_name_kept_empty_id_skipped :
  (forall l o i,
      In (EDict o) l ->
      or_str (k_id o) (k__id o) = Some i -> i <> EmptyString ->
      k_name o = Some EmptyString ->
      exists d v,
        entry_deck (EDict o) = Some d /\ id d = i /\ name d = EmptyString /\
        lookup EmptyString (deck_map (load_loop l)) = Some v /\ In d (members v)) /\
  (forall l d,
      named EmptyString (valid_decks l) = [d] ->
      get_deck (deck_map (load_loop l)) EmptyString = Ok d /\
      resolve_target (deck_map (load_loop l)) EmptyString = Ok (id d, ByName)) /\
  (forall st o,
      deck_map (load_step st (EDict (with_id (Some EmptyString) o)))
      = deck_map (load_step st (EDict (with_id None o))) /\
      count (load_step st (EDict (with_id (Some EmptyString) o)))
      = count (load_step st (EDict (with_id None o)))) /\
  (forall st o,
      str_truthy (or_str (k_id o) (k__id o)) = false ->
      deck_map (load_step st (EDict o)) = deck_map st /\
      count (load_step st (EDict o)) = count st) /\
  (forall o,
      k_id o = Some EmptyString -> str_truthy (k__id o) = false ->
      str_truthy (or_str (k_id o) (k__id o)) = false) /\
  (forall l d,
      In d (all_deck_objects (deck_map (load_loop l))) -> id d <> EmptyString).
Proof.
  split; [|split; [|split; [|split; [|split]]]].
  - intros l o i I Hi Hne Hn.
    assert (Hd : exists d, entry_deck (EDict o) = Some d /\ id d = i
                           /\ name d = EmptyString).
    { unfold entry_deck. rewrite Hi, Hn.
      apply String.eqb_neq in Hne. rewrite Hne. eexists. repeat split. }
    destruct Hd as (d & Hd & Hid & Hname).
    assert (Iv : In d (valid_decks l)).
    { unfold valid_decks. apply in_flat_map. exists (EDict o).
      split; [exact I|]. rewrite Hd. now left. }
    assert (In d (named EmptyString (valid_decks l)))
      by (apply filter_In; split; [exact Iv | rewrite Hname; reflexivity]).
    rewrite CacheFacts.load_loop_cache_of, CacheFacts.lookup_cache_of.
    exists d. destruct (named EmptyString (valid_decks l)) as [|a [|b r]] eqn:E;
      [contradiction| |]; eexists; repeat split; try eassumption.
  - intros l d H. unfold get_deck, resolve_target.
    rewrite CacheFacts.load_loop_cache_of, CacheFacts.lookup_cache_of, H.
    split; reflexivity.
  - intros st o.
    rewrite !CacheFacts.load_step_deck_map, !CacheFacts.load_step_count.
    assert (E : entry_deck (EDict (with_id (Some EmptyString) o))
                = entry_deck (EDict (with_id None o))) by reflexivity.
    rewrite E. split; reflexivity.
  - intros st o H.
    rewrite CacheFacts.load_step_deck_map, CacheFacts.load_step_count.
    assert (E : entry_deck (EDict o) = None).
    { unfold entry_deck.
      destruct (or_str (k_id o) (k__id o)) as [i|]; [|reflexivity].
      simpl in H. apply negb_false_iff in H. rewrite H.
      now destruct (k_name o). }
    rewrite E. split; reflexivity.
  - intros o Hid H_id. unfold or_str. rewrite Hid. exact H_id.
  - intros l d I.
    rewrite CacheFacts.load_loop_cache_of in I.
    apply (Permutation_in _ (CacheFacts.all_cache_of _)) in I.
    unfold valid_decks in I. apply in_flat_map in I as (e & _ & He).
    destruct e as [ty|o]; [contradiction|]. unfold entry_deck in He.
    destruct (or_str (k_id o) (k__id o)) as [i|]; [|contradiction].
    destruct (k_name o) as [n|]; [|contradiction].
    destruct (String.eqb_spec i EmptyString) as [->|N]; [contradiction|].
    destruct He as [<-|[]]. exact N.
Qed.

(** A collection with an empty name is found by that name; the entry with
    an empty id next to it is not cached. *)
Lemma empty_name_kept_empty_id_skipped_witness :
  get_deck (deck_map (load_loop [deck_entry "id1" ""; deck_entry "" "Lost"])) ""
  = Ok (mkDeck "id1" "" PNone).
Proof.
  exact (proj1 (proj1 (proj2 empty_name_kept_empty_id_skipped)
                      [deck_entry "id1" ""; deck_entry "" "Lost"]
                      (mkDeck "id1" "" PNone) eq_refl)).
Defined.

(* ===================================================================== *)
(** * The condensed view of a card *)
(* ===================================================================== *)

(** C4. For every raw content string [c], the condensed projection
    returns as front the text before the first occurrence of the separator
    line, trimmed of surrounding whitespace (the whole of [c], trimmed, when
    the separator does not occur), and as back the text after that first
    occurrence, trimmed (the empty string when the separator does not
    occur).  One of the two cases always applies.  A card whose content is
    the string [c] is condensed to exactly this view.  In particular
    "Q1\n---\nA1" gives front "Q1" and back "A1", and "OnlyFront" gives
    front "OnlyFront" and an empty back. *)
Theorem condensed_view_spec (c : string) :
  (forall pre post,
      first_split SEP c pre post ->
      trimmed_of pre (front (condensed_view c)) /\
      trimmed_of post (back (condensed_view c)) /\
      condensed_view c = mkFrontBack (strip pre) (strip post)) /\
  (no_sep SEP c ->
      trimmed_of c (front (condensed_view c)) /\
      back (condensed_view c) = EmptyString) /\
  ((exists pre post, first_split SEP c pre post) \/ no_sep SEP c) /\
  (forall o, k_content o = Some (PStr c) ->
             condense_card (EDict o) = Ok (condensed_view c)) /\
  condensed_view ("Q1" ++ SEP ++ "A1") = mkFrontBack "Q1" "A1" /\
  condensed_view "OnlyFront" = mkFrontBack "OnlyFront" EmptyString.
Proof.
  split; [|split; [|split; [|split; [|split]]]].
  - intros pre post H. apply StrFacts.first_split_find in H.
    rewrite (StrFacts.condensed_view_found _ _ _ H). simpl.
    repeat split; try apply StrFacts.strip_trims.
  - intros H. destruct (find_split SEP c) as [[a b]|] eqn:F.
    + exfalso. exact (H a b (StrFacts.find_split_sound _ _ _ _ F)).
    + rewrite (StrFacts.condensed_view_absent _ F). simpl.
      split; [apply StrFacts.strip_trims | reflexivity].
  - apply StrFacts.split_cases.
  - intros o H. unfold condense_card. now rewrite H.
  - reflexivity.
  - reflexivity.
Qed.

(** A content with blanks around both parts. *)
Lemma condensed_view_spec_witness :
  first_split SEP ("  Q1 " ++ SEP ++ "A1" ++ LF) "  Q1 " ("A1" ++ LF) /\
  condensed_view ("  Q1 " ++ SEP ++ "A1" ++ LF) = mkFrontBack "Q1" "A1".
Proof.
  assert (H : first_split SEP ("  Q1 " ++ SEP ++ "A1" ++ LF) "  Q1 " ("A1" ++ LF))
    by (apply StrFacts.find_split_first; reflexivity).
  split; [exact H|].
  exact (proj2 (proj2 (proj1 (condensed_view_spec _) _ _ H))).
Defined.

(** C8, as stated, fails: a front that itself holds the separator line is
    split at that earlier occurrence, so joining and splitting again does
    not give back the pair that was joined. *)
Lemma roundtrip_fails_when_front_has_separator :
  condensed_view (card_content ("a" ++ SEP ++ "b") "c")
  = mkFrontBack "a" ("b" ++ SEP ++ "c") /\
  condensed_view (card_content ("a" ++ SEP ++ "b") "c")
  <> mkFrontBack (strip ("a" ++ SEP ++ "b")) (strip "c").
Proof. split; [reflexivity | discriminate]. Qed.

(** C8, amended.  For every raw content [c] in which the separator
    occurs, with [pre] and [post] the texts before and after its first
    occurrence, rejoining the condensed front and back with the separator
    gives [pre] trimmed, the separator, [post] trimmed: [c] up to the
    whitespace around the two parts.  For every front/back pair such that
    the first separator of the joined content is the joining one, which is
    the case whenever the front holds no line feed, the condensed split of
    the joined content is the trimmed front and the trimmed back.  For a
    content without separator the rejoined string is the trimmed content
    followed by a separator. *)
Theorem split_join_roundtrip :
  (forall c pre post,
      first_split SEP c pre post ->
      card_content (front (condensed_view c)) (back (condensed_view c))
      = strip pre ++ SEP ++ strip post /\
      trimmed_of pre (strip pre) /\ trimmed_of post (strip post)) /\
  (forall c,
      no_sep SEP c ->
      card_content (front (condensed_view c)) (back (condensed_view c))
      = strip c ++ SEP) /\
  (forall f b,
      first_split SEP (card_content f b) f b ->
      condensed_view (card_content f b) = mkFrontBack (strip f) (strip b)) /\
  (forall f b,
      has_char (ascii_of_nat 10) f = false ->
      first_split SEP (card_content f b) f b).
Proof.
  split; [|split; [|split]].
  - intros c pre post H. apply StrFacts.first_split_find in H.
    rewrite (StrFacts.condensed_view_found _ _ _ H). simpl.
    repeat split; try apply StrFacts.strip_trims.
  - intros c H. destruct (find_split SEP c) as [[a b]|] eqn:F.
    + exfalso. exact (H a b (StrFacts.find_split_sound _ _ _ _ F)).
    + now rewrite (StrFacts.condensed_view_absent _ F).
  - intros f b H. apply StrFacts.first_split_find in H.
    now apply StrFacts.condensed_view_found.
  - intros f b H. split; [reflexivity|].
    intros pre' post' E. now apply (StrFacts.no_LF_first_split f b H pre' post').
Qed.

(** A front without line feed: the pair comes back trimmed. *)
Lemma split_join_roundtrip_witness :
  condensed_view (card_content " Capital of France? " "Paris ")
  = mkFrontBack "Capital of France?" "Paris".
Proof.
  exact (proj1 (proj2 (proj2 split_join_roundtrip)) _ _
           (proj2 (proj2 (proj2 split_join_roundtrip))
                  " Capital of France? " "Paris " eq_refl)).
Defined.

(* ===================================================================== *)
(** * Refresh, creation and deletion *)
(* ===================================================================== *)

Section Mutations.

Context {server : Type} {T : Transport server} {R : Render}.

(** C6. [refresh_decks] replaces the cache as one whole.  In every
    state, either the reload raises, the same error is raised by the
    refresh and the client (its cache included) is as before; or the
    reload returns the cache built from one listing and the refresh ends
    with exactly that cache, whatever the cache was before. *)
Theorem refresh_decks_atomic (st : state) :
  (exists e st',
      refresh_decks st = (Raise e, st') /\
      _load_decks_internal st = (Raise e, st') /\
      self st' = self st) \/
  (exists l st',
      refresh_decks st = (Ok tt, st') /\
      fst (_load_decks_internal st) = Ok (deck_map (load_loop l)) /\
      decks (self st') = deck_map (load_loop l) /\
      forall c0,
        fst (refresh_decks (with_decks c0 st)) = Ok tt /\
        decks (self (snd (refresh_decks (with_decks c0 st))))
        = deck_map (load_loop l)).
Proof.
  destruct (load_cases st) as (r & net' & w & E & H & B).
  unfold refresh_decks, bind. rewrite E. destruct r as [m|e].
  - right. destruct H as [l ->]. exists l. eexists.
    split; [reflexivity|]. split; [reflexivity|]. split; [reflexivity|].
    intros c0. rewrite (B c0). split; reflexivity.
  - left. exists e. eexists. split; [reflexivity|]. split; reflexivity.
Qed.

(** C7. Whenever the creation request succeeds with an object holding
    an id and a name, the refresh that follows succeeds, and the lookup of
    the created name in the refreshed cache fails, [create_deck] does
    not raise: it returns the collection built from the id, the name and
    the parent of the creation response. *)
Theorem create_deck_fallback (name : string) (parent_id : option string)
        (st st1 st2 : state) (docs : option docs_value) (o : obj)
        (i n : string) (e : exn) :
  _make_request "POST" "decks" (Some (create_deck_payload name parent_id)) st
  = (Ok (JDict docs o), st1) ->
  or_str (k_id o) (k__id o) = Some i -> i <> EmptyString -> k_name o = Some n ->
  refresh_decks st1 = (Ok tt, st2) ->
  get_deck (decks (self st2)) n = Raise e ->
  create_deck name parent_id st
  = (Ok (mkDeck i n (py_or (py_or (k_parent_dash_id o) (k_parent_id o))
                           (k_parent o))), st2).
Proof.
  intros Hreq Hid Hne Hname Href Hget.
  assert (He : exists msg, e = ValueError msg).
  { unfold get_deck in Hget.
    destruct (lookup n (decks (self st2))) as [[d|l]|]; try discriminate;
      injection Hget as <-; eauto. }
  destruct He as [msg ->].
  unfold create_deck, try_except, bind. rewrite Hreq. simpl.
  rewrite Hid, Hname. simpl.
  apply String.eqb_neq in Hne. rewrite Hne. simpl.
  rewrite Href. unfold get_decks_attr, lift. rewrite Hget. reflexivity.
Qed.

End Mutations.

(** The created name collides with a cached one: the caller still gets
    the collection of the creation response. *)
Lemma create_deck_fallback_witness :
  @create_deck script scripted_transport opaque_render "Spanish" None
     (mkState (mkMochiAPI ("key", EmptyString) [])
              [Responded (created_response "id2" "Spanish");
               Responded (listing_response two_namesakes)] [])
  = (Ok (mkDeck "id2" "Spanish" PNone),
     mkState (mkMochiAPI ("key", EmptyString) (deck_map (load_loop two_namesakes)))
             [] []).
Proof.
  apply (@create_deck_fallback script scripted_transport opaque_render
           "Spanish" None _
           (mkState (mkMochiAPI ("key", EmptyString) [])
                    [Responded (listing_response two_namesakes)] [])
           _ None
           (mkObj (Some "id2") None (Some "Spanish") PNone PNone PNone None None None)
           "id2" "Spanish"
           (ValueError (multiple_decks_msg "Spanish" ["id1"; "id2"])));
    try reflexivity.
  discriminate.
Defined.

(* ===================================================================== *)
(** * Deleting what is not there *)
(* ===================================================================== *)

Section Deleting.

Context {server : Type} {T : Transport server} {R : Render}.

(** The branch of the delete handlers for a 404 does what it is written
    for: an error with status code 404 becomes the "not found" error
    that names the id and keeps the code. *)
Lemma delete_card_handler_on_404 (card_id msg : string) (r : option rdata)
      (st st' : state) :
  _make_request "DELETE" ("cards/" ++ card_id) None st
  = (Raise (MochiAPIError msg (Some 404%Z) r), st') ->
  Deck_delete_card card_id st
  = (Raise (MochiAPIError
              ("Failed to delete card: No card found with ID '" ++ card_id
               ++ "' (Error 404)") (Some 404%Z) r), st').
Proof.
  intros H. unfold Deck_delete_card, try_except, bind. now rewrite H.
Qed.

(** But no request ever raises an error with a status code, so no error
    of a delete operation carries one. *)
Lemma delete_card_never_has_status (card_id : string) (st st' : state) (e : exn) :
  Deck_delete_card card_id st = (Raise e, st') -> status_code_of e = None.
Proof.
  unfold Deck_delete_card, try_except, bind.
  destruct (make_request_frame "DELETE" ("cards/" ++ card_id) None st)
    as (r & net' & E & H).
  rewrite E. destruct r as [j|e0].
  - discriminate.
  - destruct H as [msg ->]. simpl. intros [= <- _]. reflexivity.
Qed.

Lemma delete_deck_never_has_status (deck_id : string) (st st' : state) (e : exn) :
  delete_deck deck_id st = (Raise e, st') -> status_code_of e = None.
Proof.
  unfold delete_deck, try_except, bind.
  destruct (make_request_frame "DELETE" ("decks/" ++ deck_id) None st)
    as (r & net' & E & H).
  rewrite E. destruct r as [j|e0].
  - destruct (refresh_cases (mkState (self st) net' (out st)))
      as (r' & net'' & w & _ & C).
    destruct r' as [m|e1].
    + destruct C as [_ ->]. discriminate.
    + destruct C as [[msg ->] ->]. simpl. intros [= <- _]. reflexivity.
  - destruct H as [msg ->]. simpl. intros [= <- _]. reflexivity.
Qed.

End Deleting.

(** C9: the code at the failing input.  The server answers the DELETE
    with HTTP 404.  [_make_request] reads the status code under
    [if response], and a [requests.Response] of status 400 or above is
    false, so the error it raises has no status code; the delete handlers
    then take the generic branch.  The surfaced error carries no 404 and
    not the "not found" message, for a card and for a deck alike. *)
Theorem delete_on_404_loses_the_status (R : Render) (api : MochiAPI) (w : list warning) :
  @Deck_delete_card script scripted_transport R "c1"
     (mkState api [Responded not_found_response] w)
  = (Raise (MochiAPIError
              ("Failed to delete card ID 'c1': HTTP Error calling DELETE "
               ++ "https://app.mochi.cards/api/cards/c1: Not Found")
              None None),
     mkState api [] w) /\
  @delete_deck script scripted_transport R "d1"
     (mkState api [Responded not_found_response] w)
  = (Raise (MochiAPIError
              ("Failed to delete deck ID 'd1': HTTP Error calling DELETE "
               ++ "https://app.mochi.cards/api/decks/d1: Not Found")
              None None),
     mkState api [] w).
Proof. split; reflexivity. Qed.

(* ===================================================================== *)
(** * Further facts about the loader and the cache queries *)
(* ===================================================================== *)

Module QueryFacts.
Import CacheFacts.

Lemma Permutation_filter {A : Type} (f : A -> bool) (l l' : list A) :
  Permutation l l' -> Permutation (filter f l) (filter f l').
Proof.
  induction 1 as [|x l l' _ IH|x y l|l l' l'' _ IH1 _ IH2]; simpl.
  - constructor.
  - destruct (f x); [now constructor | exact IH].
  - destruct (f x), (f y); try reflexivity; try (now constructor).
  - now transitivity (filter f l').
Qed.

Lemma child_decks_filter (m : cache) (this : Deck) :
  child_decks m this = filter (is_child_of this) (all_deck_objects m).
Proof.
  unfold child_decks, all_deck_objects.
  induction (values m) as [|v vs IH]; simpl; [reflexivity|].
  now rewrite filter_app, IH.
Qed.

Lemma is_child_of_iff (this d : Deck) :
  is_child_of this d = true <-> parent_id d = PStr (id this).
Proof.
  unfold is_child_of. destruct (parent_id d) as [| | |p];
    try (split; [discriminate | intros [=]]).
  rewrite String.eqb_eq. split; [now intros -> | now intros [= ->]].
Qed.

Lemma first_seen_snoc (l : list string) (x : string) :
  first_seen (l ++ [x])
  = if in_dec string_dec x l then first_seen l else (first_seen l ++ [x])%list.
Proof.
  unfold first_seen. rewrite rev_app_distr. simpl.
  destruct (in_dec string_dec x (rev l)) as [I|N];
    destruct (in_dec string_dec x l) as [I'|N']; try reflexivity.
  - exfalso. apply N'. now apply in_rev.
  - exfalso. apply N. now apply in_rev in I'.
Qed.

Lemma first_seen_In (l : list string) (x : string) :
  In x (first_seen l) <-> In x l.
Proof.
  unfold first_seen. rewrite <- in_rev, nodup_In, <- in_rev. tauto.
Qed.

Lemma mem_cache_of (ds : list Deck) (k : string) :
  mem k (cache_of ds) = true <-> In k (map name ds).
Proof.
  unfold mem. rewrite lookup_cache_of. split.
  - destruct (named k ds) as [|a r] eqn:E; [discriminate|]. intros _.
    assert (I : In a (named k ds)) by (rewrite E; now left).
    apply filter_In in I as [I Hn]. apply String.eqb_eq in Hn. subst k.
    now apply in_map.
  - intros I. apply in_map_iff in I as (d & <- & I).
    assert (I' : In d (named (name d) ds))
      by (apply filter_In; split; [exact I | apply String.eqb_refl]).
    destruct (named (name d) ds) as [|a [|b r]]; [contradiction| |]; reflexivity.
Qed.

(** The keys of the cache are the names of the filed collections, in the
    order of their first occurrence. *)
Lemma keys_cache_of (ds : list Deck) :
  keys (cache_of ds) = first_seen (map name ds).
Proof.
  induction ds as [|d ds IH] using rev_ind; [reflexivity|].
  rewrite cache_of_snoc, map_app. simpl. rewrite first_seen_snoc.
  assert (K : keys (file_deck (name d) d (cache_of ds))
              = if mem (name d) (cache_of ds) then keys (cache_of ds)
                else (keys (cache_of ds) ++ [name d])%list).
  { unfold file_deck.
    destruct (lookup (name d) (cache_of ds)) as [[e|l]|]; apply keys_assign. }
  rewrite K, IH.
  destruct (in_dec string_dec (name d) (map name ds)) as [I|N].
  - apply mem_cache_of in I. now rewrite I.
  - destruct (mem (name d) (cache_of ds)) eqn:M; [|reflexivity].
    apply mem_cache_of in M. contradiction.
Qed.

(** The decks of a cache with distinct keys, read off key by key. *)
Lemma all_by_key (m : cache) (g : string -> list Deck) :
  NoDup (keys m) ->
  (forall k v, lookup k m = Some v -> members v = g k) ->
  all_deck_objects m = flat_map g (keys m).
Proof.
  induction m as [|[k v] m IH]; intros ND H; [reflexivity|].
  simpl in ND. inversion ND as [|? ? Hk ND']; subst.
  change (all_deck_objects ((k, v) :: m)) with (members v ++ all_deck_objects m)%list.
  simpl. f_equal.
  - apply H. simpl. now rewrite String.eqb_refl.
  - apply IH; [exact ND'|]. intros k' v' L. apply H. simpl.
    destruct (String.eqb_spec k' k) as [->|N]; [|exact L].
    exfalso. apply lookup_None_keys in Hk. congruence.
Qed.

Lemma all_cache_of_by_name (ds : list Deck) :
  all_deck_objects (cache_of ds)
  = flat_map (fun n => named n ds) (first_seen (map name ds)).
Proof.
  rewrite <- keys_cache_of. apply all_by_key; [apply NoDup_keys_cache_of|].
  intros k v L. rewrite lookup_cache_of in L.
  now apply group_members in L as [-> _].
Qed.

Lemma valid_decks_cons (e : elem) (l : list elem) :
  valid_decks (e :: l)
  = (match entry_deck e with Some d => [d] | None => [] end ++ valid_decks l)%list.
Proof. reflexivity. Qed.

Lemma valid_decks_accepted (l : list elem) :
  valid_decks (filter (fun e => match entry_deck e with
                                | Some _ => true
                                | None => false
                                end) l)
  = valid_decks l.
Proof.
  induction l as [|e l IH]; [reflexivity|]. simpl filter.
  destruct (entry_deck e) as [d|] eqn:E.
  - rewrite !valid_decks_cons, E, IH. reflexivity.
  - rewrite valid_decks_cons, E, IH. reflexivity.
Qed.

Lemma valid_deck_shape (l : list elem) (d : Deck) :
  In d (valid_decks l) ->
  id d <> EmptyString /\
  (parent_id d = PNone \/ exists s, parent_id d = PStr s).
Proof.
  unfold valid_decks. intros I. apply in_flat_map in I as (e & _ & He).
  destruct e as [ty|o]; [contradiction|]. unfold entry_deck in He.
  destruct (or_str (k_id o) (k__id o)) as [i|]; [|contradiction].
  destruct (k_name o) as [n|]; [|contradiction].
  destruct (String.eqb_spec i EmptyString) as [->|N]; [contradiction|].
  destruct He as [<-|[]]. split; [exact N|]. simpl.
  destruct (py_or (py_or (k_parent_dash_id o) (k_parent_id o)) (k_parent o));
    simpl; eauto.
Qed.

Lemma load_step_tally (st : load_state) (e : elem) :
  (count (load_step st e) + length (filter is_skip (warnings (load_step st e))))%nat
  = S (count st + length (filter is_skip (warnings st))).
Proof.
  destruct e as [ty|o]; simpl.
  - rewrite filter_app, length_app. simpl. lia.
  - set (p := py_or _ _).
    set (w := if negb (is_none p) && negb (is_str p)
              then (warnings st ++ [NonStringParent (or_str (k_id o) (k__id o))
                                                    (k_name o) p])%list
              else warnings st).
    assert (W : length (filter is_skip w) = length (filter is_skip (warnings st))).
    { subst w. destruct (negb (is_none p) && negb (is_str p)); [|reflexivity].
      rewrite filter_app, length_app. simpl. lia. }
    destruct (or_str (k_id o) (k__id o)) as [i|]; [destruct (k_name o) as [n|]|];
      [destruct (negb (str_truthy (Some i)))| |]; simpl;
      rewrite ?filter_app, ?length_app; simpl; lia.
Qed.

Lemma fold_load_tally (l : list elem) (st : load_state) :
  (count (fold_left load_step l st)
   + length (filter is_skip (warnings (fold_left load_step l st))))%nat
  = (length l + (count st + length (filter is_skip (warnings st))))%nat.
Proof.
  revert st. induction l as [|e l IH]; intros st; [reflexivity|].
  simpl. rewrite IH, load_step_tally. lia.
Qed.

Lemma fold_load_count (l : list elem) (st : load_state) :
  count (fold_left load_step l st) = (count st + length (valid_decks l))%nat.
Proof.
  revert st. induction l as [|e l IH]; intros st; [simpl; lia|].
  rewrite valid_decks_cons, length_app. cbn [fold_left].
  rewrite IH, load_step_count.
  destruct (entry_deck e); simpl; lia.
Qed.

Lemma names_le_decks (m : cache) :
  (forall k v, In (k, v) m ->
               match v with ADeck _ => True | AList l => (2 <= length l)%nat end) ->
  (length (keys m) <= length (all_deck_objects m))%nat /\
  (length (keys m) = length (all_deck_objects m) <->
   forall k v, In (k, v) m -> exists d, v = ADeck d).
Proof.
  induction m as [|[k v] m IH]; intros H.
  - split; [simpl; lia|]. split; [intros _ k v []| reflexivity].
  - assert (H' : forall k' v', In (k', v') m ->
                   match v' with ADeck _ => True | AList l => (2 <= length l)%nat end)
      by (intros k' v' I; apply (H k' v'); now right).
    destruct (IH H') as [IH1 IH2].
    change (all_deck_objects ((k, v) :: m)) with (members v ++ all_deck_objects m)%list.
    rewrite length_app. simpl.
    pose proof (H k v (or_introl eq_refl)) as Hv.
    destruct v as [d|l]; simpl.
    + split; [lia|]. split.
      * intros E k' v' [[= <- <-]|I]; [eauto|].
        assert (E' : length (keys m) = length (all_deck_objects m)) by lia.
        exact (proj1 IH2 E' k' v' I).
      * intros A. f_equal. apply IH2. intros k' v' I. apply (A k' v'). now right.
    + split; [lia|]. split; [lia|].
      intros A. destruct (A k (AList l) (or_introl eq_refl)) as [d E]. discriminate.
Qed.

End QueryFacts.

(** X1. [get_children] on a loaded cache returns the collections of the
    listing whose parent id is the id of the deck, each once: a deck is
    among the children exactly when it is a valid entry of the listing
    with that parent.  With [names_only] the result is the list of their
    names, in the same order; when no entry has that parent both results
    are empty. *)
Theorem children_of_loaded_cache (l : list elem) (this : Deck) :
  let m := deck_map (load_loop l) in
  Permutation (child_decks m this) (filter (is_child_of this) (valid_decks l)) /\
  (forall d, In d (child_decks m this) <->
             In d (valid_decks l) /\ parent_id d = PStr (id this)) /\
  Deck_get_children m this false = ChildDecks (child_decks m this) /\
  Deck_get_children m this true = ChildNames (map name (child_decks m this)) /\
  ((forall d, In d (valid_decks l) -> parent_id d <> PStr (id this)) ->
   Deck_get_children m this false = ChildDecks [] /\
   Deck_get_children m this true = ChildNames []).
Proof.
  intros m.
  assert (P : Permutation (child_decks m this)
                          (filter (is_child_of this) (valid_decks l))).
  { subst m. rewrite QueryFacts.child_decks_filter, CacheFacts.load_loop_cache_of.
    apply QueryFacts.Permutation_filter, CacheFacts.all_cache_of. }
  assert (I : forall d, In d (child_decks m this) <->
                        In d (valid_decks l) /\ parent_id d = PStr (id this)).
  { intros d. rewrite <- QueryFacts.is_child_of_iff, <- filter_In. split.
    - now apply Permutation_in.
    - apply Permutation_in. now symmetry. }
  split; [exact P|]. split; [exact I|]. split; [reflexivity|].
  split; [reflexivity|]. intros H.
  assert (E : child_decks m this = []).
  { destruct (child_decks m this) as [|d r]; [reflexivity|]. exfalso.
    destruct (proj1 (I d) (or_introl eq_refl)) as [Hd Hp]. exact (H d Hd Hp). }
  unfold Deck_get_children. rewrite E. split; reflexivity.
Qed.

(** No entry of the listing has the deck as its parent. *)
Lemma children_of_loaded_cache_witness :
  Deck_get_children
    (deck_map (load_loop [deck_entry "p1" "Languages"])) (mkDeck "zz" "Other" PNone)
    true
  = ChildNames [].
Proof.
  apply (proj2 (proj2 (proj2 (proj2
           (children_of_loaded_cache [deck_entry "p1" "Languages"]
                                     (mkDeck "zz" "Other" PNone)))))).
  intros d [<-|[]]. discriminate.
Defined.

(** X2. The number the loader counts is the number of valid entries, the
    result of [count_decks] on the cache it returns and the length of
    [get_decks(names_only=False)]; every entry of the listing is either
    counted or reported by exactly one skip warning. *)
Theorem loader_tally (l : list elem) :
  let final := load_loop l in
  count final = length (valid_decks l) /\
  count final = count_decks (deck_map final) /\
  count final = length (get_deck_infos (deck_map final)) /\
  length l = (count final + length (filter is_skip (warnings final)))%nat.
Proof.
  intros final.
  assert (C : count final = length (valid_decks l))
    by (subst final; unfold load_loop; now rewrite QueryFacts.fold_load_count).
  assert (D : count_decks (deck_map final) = length (valid_decks l)).
  { subst final. rewrite CacheFacts.count_decks_length, CacheFacts.load_loop_cache_of.
    apply Permutation_length, CacheFacts.all_cache_of. }
  split; [exact C|]. split; [congruence|]. split.
  - rewrite CacheFacts.get_deck_infos_all, length_map,
      <- CacheFacts.count_decks_length. congruence.
  - subst final. unfold load_loop. rewrite QueryFacts.fold_load_tally. simpl. lia.
Qed.

(** X3. [get_decks()] on a loaded cache lists the names of the valid
    entries, each once, in the order in which the listing first shows
    them. *)
Theorem deck_names_first_seen (l : list elem) :
  let names := get_deck_names (deck_map (load_loop l)) in
  names = first_seen (map name (valid_decks l)) /\
  NoDup names /\
  (forall n, In n names <-> exists d, In d (valid_decks l) /\ name d = n).
Proof.
  intros names. subst names. unfold get_deck_names.
  rewrite CacheFacts.load_loop_cache_of.
  split; [apply QueryFacts.keys_cache_of|].
  split; [apply CacheFacts.NoDup_keys_cache_of|].
  intros n. rewrite QueryFacts.keys_cache_of, QueryFacts.first_seen_In, in_map_iff.
  split; intros (d & A & B); exists d; tauto.
Qed.

(** The name of the two namesakes is listed. *)
Lemma deck_names_first_seen_witness :
  In "Spanish" (get_deck_names (deck_map (load_loop two_namesakes))).
Proof.
  apply (proj2 (proj2 (deck_names_first_seen two_namesakes))).
  exists (mkDeck "id1" "Spanish" PNone). split; [now left | reflexivity].
Defined.

(** X4. [get_decks(names_only=False)] on a loaded cache lists the
    collections name by name, the names in the order of [get_decks()],
    and under each name the collections holding it in listing order. *)
Theorem deck_infos_grouped (l : list elem) :
  let m := deck_map (load_loop l) in
  get_deck_infos m
  = flat_map (fun n => map (fun d => (name d, id d)) (named n (valid_decks l)))
             (get_deck_names m) /\
  all_deck_objects m
  = flat_map (fun n => named n (valid_decks l)) (get_deck_names m).
Proof.
  intros m. subst m. unfold get_deck_names.
  rewrite CacheFacts.get_deck_infos_all, CacheFacts.load_loop_cache_of.
  rewrite QueryFacts.all_cache_of_by_name, QueryFacts.keys_cache_of.
  split; [|reflexivity].
  induction (first_seen (map name (valid_decks l))) as [|n ns IH]; [reflexivity|].
  simpl. now rewrite map_app, IH.
Qed.

(** X5. On a loaded cache [get_deck(n)] returns a deck exactly when that
    deck is the only valid entry of the listing named [n]. *)
Theorem get_deck_unique_name (l : list elem) (n : string) (d : Deck) :
  get_deck (deck_map (load_loop l)) n = Ok d <-> named n (valid_decks l) = [d].
Proof.
  unfold get_deck.
  rewrite CacheFacts.load_loop_cache_of, CacheFacts.lookup_cache_of.
  destruct (named n (valid_decks l)) as [|a [|b r]]; simpl; split;
    try discriminate; intros [= ->]; reflexivity.
Qed.

(** Two entries, one of them named "French". *)
Lemma get_deck_unique_name_witness :
  get_deck (deck_map (load_loop [deck_entry "id1" "Spanish"; deck_entry "id2" "French"]))
           "French"
  = Ok (mkDeck "id2" "French" PNone).
Proof.
  exact (proj2 (get_deck_unique_name
                  [deck_entry "id1" "Spanish"; deck_entry "id2" "French"]
                  "French" (mkDeck "id2" "French" PNone)) eq_refl).
Defined.

(** X6. In a cache that meets the invariant, a successful resolution
    never invents an id: the target is the id of a cached deck, which holds
    the input as its name when resolved by name, and whose id is the input,
    no cached deck holding the input as a name, when resolved by id. *)
Theorem resolve_target_sound (cached : cache) (s i : string) (by_ : resolved_by) :
  cache_ok cached ->
  resolve_target cached s = Ok (i, by_) ->
  exists d,
    In d (all_deck_objects cached) /\ id d = i /\
    match by_ with
    | ByName => named s (all_deck_objects cached) = [d]
    | ById => i = s /\ named s (all_deck_objects cached) = []
    end.
Proof.
  intros OK. unfold resolve_target.
  rewrite (ResolveFacts.lookup_named cached s OK).
  destruct (named s (all_deck_objects cached)) as [|a [|b r]] eqn:E; simpl.
  - destruct (find (fun deck => id deck =? s) (all_deck_objects cached))
      as [d|] eqn:F; [|discriminate].
    intros [= <- <-]. apply find_some in F as [I Hd].
    apply String.eqb_eq in Hd. exists d. auto.
  - intros [= <- <-]. exists a. split; [|auto].
    assert (I : In a (named s (all_deck_objects cached))) by (rewrite E; now left).
    now apply filter_In in I as [I _].
  - discriminate.
Qed.

(** Resolution by id in the cache of two namesakes. *)
Lemma resolve_target_sound_witness :
  exists d,
    In d (all_deck_objects (deck_map (load_loop two_namesakes))) /\ id d = "id2" /\
    "id2" = "id2" /\
    named "id2" (all_deck_objects (deck_map (load_loop two_namesakes))) = [].
Proof.
  exact (resolve_target_sound (deck_map (load_loop two_namesakes)) "id2" "id2" ById
           (ResolveFacts.loaded_cache_ok two_namesakes) eq_refl).
Defined.

(** X7. Every deck of a loaded cache has a parent id that is [None] or a
    string; an entry whose parent value is neither is reported by a
    warning. *)
Theorem loaded_parent_is_str_or_none (l : list elem) :
  (forall d, In d (all_deck_objects (deck_map (load_loop l))) ->
             parent_id d = PNone \/ exists s, parent_id d = PStr s) /\
  (forall o,
      In (EDict o) l ->
      let p := py_or (py_or (k_parent_dash_id o) (k_parent_id o)) (k_parent o) in
      is_none p = false -> is_str p = false ->
      In (NonStringParent (or_str (k_id o) (k__id o)) (k_name o) p)
         (warnings (load_loop l))).
Proof.
  split.
  - intros d I. rewrite CacheFacts.load_loop_cache_of in I.
    apply (Permutation_in _ (CacheFacts.all_cache_of _)) in I.
    now apply QueryFacts.valid_deck_shape in I.
  - intros o I p Hn Hs. apply in_split in I as (l1 & l2 & ->).
    unfold load_loop. rewrite fold_left_app. simpl.
    apply CacheFacts.warnings_grow.
    set (st := fold_left load_step l1 _). unfold load_step. fold p.
    rewrite Hn, Hs. simpl.
    assert (W : In (NonStringParent (or_str (k_id o) (k__id o)) (k_name o) p)
                   (warnings st ++ [NonStringParent (or_str (k_id o) (k__id o))
                                                    (k_name o) p]))
      by (apply in_or_app; right; now left).
    destruct (or_str (k_id o) (k__id o)) as [i|]; [destruct (k_name o) as [n|]|];
      [destruct (negb (str_truthy (Some i)))| |]; simpl;
      try (apply in_or_app; now left); exact W.
Qed.

(** An entry whose parent is a number. *)
Lemma loaded_parent_is_str_or_none_witness :
  In (NonStringParent (Some "id1") (Some "Spanish") (PInt 7))
     (warnings (load_loop
                  [EDict (mkObj (Some "id1") None (Some "Spanish")
                                (PInt 7) PNone PNone None None None)])).
Proof.
  exact (proj2 (loaded_parent_is_str_or_none
                  [EDict (mkObj (Some "id1") None (Some "Spanish")
                                (PInt 7) PNone PNone None None None)])
               (mkObj (Some "id1") None (Some "Spanish")
                      (PInt 7) PNone PNone None None None)
               (or_introl eq_refl) eq_refl eq_refl).
Defined.

(** X8. In a cache that meets the invariant, there are at most as many
    names as decks, and as many exactly when every cached name can be
    fetched with [get_deck]. *)
Theorem names_le_count (m : cache) :
  cache_ok m ->
  (length (get_deck_names m) <= count_decks m)%nat /\
  (length (get_deck_names m) = count_decks m <->
   forall n, In n (get_deck_names m) -> exists d, get_deck m n = Ok d).
Proof.
  intros [ND H]. rewrite CacheFacts.count_decks_length. unfold get_deck_names.
  destruct (QueryFacts.names_le_decks m (fun k v I => proj2 (H k v I))) as [L E].
  split; [exact L|]. rewrite E. split.
  - intros A n I. apply in_map_iff in I as ([k v] & <- & I). simpl.
    destruct (A k v I) as [d ->]. exists d. unfold get_deck.
    now rewrite (CacheFacts.In_lookup _ _ _ ND I).
  - intros A k v I.
    destruct (A k) as [d Hd];
      [change k with (fst (k, v)); now apply in_map|].
    unfold get_deck in Hd. rewrite (CacheFacts.In_lookup _ _ _ ND I) in Hd.
    destruct v as [d'|l']; [eauto | discriminate].
Qed.

(** Two namesakes: one name, two decks. *)
Lemma names_le_count_witness :
  (length (get_deck_names (deck_map (load_loop two_namesakes)))
   <= count_decks (deck_map (load_loop two_namesakes)))%nat.
Proof.
  exact (proj1 (names_le_count (deck_map (load_loop two_namesakes))
                               (ResolveFacts.loaded_cache_ok two_namesakes))).
Defined.

(** X9. The loaded cache and the loader's count depend on the accepted
    entries only: dropping from the listing every element that is no
    object, or has no usable id, or has no name, changes neither. *)
Theorem load_ignores_rejected (l : list elem) :
  let accepted := filter (fun e => match entry_deck e with
                                   | Some _ => true
                                   | None => false
                                   end) l in
  deck_map (load_loop l) = deck_map (load_loop accepted) /\
  count (load_loop l) = count (load_loop accepted) /\
  (forall ty, entry_deck (ENotDict ty) = None).
Proof.
  intros accepted. subst accepted.
  split; [|split; [|reflexivity]].
  - now rewrite !CacheFacts.load_loop_cache_of, QueryFacts.valid_decks_accepted.
  - unfold load_loop.
    now rewrite !QueryFacts.fold_load_count, QueryFacts.valid_decks_accepted.
Qed.

(* ===================================================================== *)
(** * Further facts about the condensed view and the requests *)
(* ===================================================================== *)

Module ViewFacts.
Import StrFacts.

Lemma SEP_length : String.length SEP = 5%nat.
Proof. reflexivity. Qed.

(** A text cut out of a text without separator has no separator. *)
Lemma no_sep_inside (l t r : string) :
  no_sep SEP (l ++ t ++ r) -> no_sep SEP t.
Proof.
  intros H a b E. subst t. apply (H (l ++ a) (b ++ r)).
  now rewrite !append_assoc.
Qed.

Lemma first_split_no_sep_before (c pre post : string) :
  first_split SEP c pre post -> no_sep SEP pre.
Proof.
  intros [E L] a b Ep. subst pre.
  specialize (L a (b ++ SEP ++ post)).
  rewrite !append_assoc in E. specialize (L E).
  rewrite !length_append, SEP_length in L. lia.
Qed.

Lemma length_take (n : nat) (s : string) :
  (String.length (take n s) <= n)%nat.
Proof.
  unfold take. revert s. induction n as [|n IH]; intros [|c s]; simpl; try lia.
  specialize (IH s). lia.
Qed.

Lemma condense_all_ok (raw : list elem) (texts : list string) :
  map card_text raw = map Some texts ->
  condense_all raw = Ok (map (fun t => CondensedCard (condensed_view t)) texts).
Proof.
  revert texts. induction raw as [|e raw IH]; intros [|t texts] H;
    simpl in H; try discriminate; [reflexivity|].
  injection H as He H. simpl. rewrite (IH _ H).
  destruct e as [ty|o]; [discriminate|]. simpl in *.
  destruct (k_content o) as [[| | |s]|]; try discriminate;
    injection He as <-; reflexivity.
Qed.

Lemma condense_card_none (e : elem) :
  card_text e = None -> exists msg, condense_card e = Raise (AttributeError msg).
Proof.
  destruct e as [ty|o]; simpl; [eauto|].
  destruct (k_content o) as [[| | |s]|]; try discriminate; eauto.
Qed.

Lemma condense_all_fail (raw : list elem) (e : elem) :
  In e raw -> card_text e = None ->
  exists msg, condense_all raw = Raise (AttributeError msg).
Proof.
  induction raw as [|x raw IH]; [intros []|]. intros [->|I] H.
  - destruct (condense_card_none _ H) as [msg E]. simpl. rewrite E. eauto.
  - simpl. destruct (condense_card x) as [fb|e0] eqn:C.
    + destruct (IH I H) as [msg ->]. eauto.
    + destruct x as [ty|o]; simpl in C; [injection C as <-; eauto|].
      destruct (k_content o) as [[| | |s]|]; try discriminate;
        injection C as <-; eauto.
Qed.

Lemma condense_all_length (raw : list elem) (cards : list card_view) :
  condense_all raw = Ok cards ->
  length cards = length raw /\
  forall v, In v cards -> exists fb, v = CondensedCard fb.
Proof.
  revert cards. induction raw as [|x raw IH]; intros cards; simpl.
  - intros [= <-]. split; [reflexivity | intros v []].
  - destruct (condense_card x) as [fb|e0]; [|discriminate].
    destruct (condense_all raw) as [l|e1]; [|discriminate].
    intros [= <-]. destruct (IH l eq_refl) as [L A]. simpl.
    split; [now rewrite L|]. intros v [<-|I]; eauto.
Qed.

Lemma condense_all_raises (raw : list elem) (e : exn) :
  condense_all raw = Raise e -> exists msg, e = AttributeError msg.
Proof.
  induction raw as [|x raw IH]; simpl; [discriminate|].
  destruct (condense_card x) as [fb|e0] eqn:C.
  - destruct (condense_all raw) as [l|e1]; [discriminate|].
    intros [= <-]. now apply IH.
  - intros [= <-]. destruct x as [ty|o]; simpl in C; [injection C as <-; eauto|].
    destruct (k_content o) as [[| | |s]|]; try discriminate;
      injection C as <-; eauto.
Qed.

Lemma lstrip_slash_slashes (n : nat) (e : string) :
  lstrip_slash (slashes n ++ e) = lstrip_slash e.
Proof. induction n as [|n IH]; [reflexivity | exact IH]. Qed.

End ViewFacts.

(** X10. The condensed view is clean: the front and the back neither
    start nor end with whitespace, and the front never holds the separator
    line. *)
Theorem condensed_view_clean (c : string) :
  edge_free (front (condensed_view c)) /\
  edge_free (back (condensed_view c)) /\
  no_sep SEP (front (condensed_view c)).
Proof.
  destruct (find_split SEP c) as [[pre post]|] eqn:F.
  - rewrite (StrFacts.condensed_view_found _ _ _ F). simpl.
    split; [apply StrFacts.strip_trims|]. split; [apply StrFacts.strip_trims|].
    destruct (StrFacts.strip_trims pre) as [(l & r & E & _) _].
    apply (ViewFacts.no_sep_inside l (strip pre) r). rewrite <- E.
    apply (ViewFacts.first_split_no_sep_before c pre post).
    now apply StrFacts.find_split_first.
  - rewrite (StrFacts.condensed_view_absent _ F). simpl.
    split; [apply StrFacts.strip_trims|].
    split; [split; intros ch; discriminate|].
    destruct (StrFacts.strip_trims c) as [(l & r & E & _) _].
    apply (ViewFacts.no_sep_inside l (strip c) r). rewrite <- E.
    now apply StrFacts.find_split_None.
Qed.

(** X11. Leading slashes of an endpoint do not reach the URL: whatever
    their number, the request goes to the base address, one slash, and the
    endpoint without them. *)
Theorem request_url_normalises (n : nat) (endpoint : string) :
  head_char endpoint <> Some "/"%char ->
  request_url (slashes n ++ endpoint)
  = "https://app.mochi.cards/api/" ++ endpoint.
Proof.
  intros H. unfold request_url. rewrite ViewFacts.lstrip_slash_slashes.
  destruct endpoint as [|ch e]; [reflexivity|].
  assert (E : lstrip_slash (String ch e) = String ch e).
  { simpl. destruct ch as [[] [] [] [] [] [] [] []]; try reflexivity.
    exfalso. apply H. reflexivity. }
  rewrite E. reflexivity.
Qed.

(** Two leading slashes before the decks endpoint. *)
Lemma request_url_normalises_witness :
  request_url "//decks/d1" = "https://app.mochi.cards/api/decks/d1".
Proof.
  apply (request_url_normalises 2 "decks/d1"). discriminate.
Defined.

(* ===================================================================== *)
(** * Further facts about the operations *)
(* ===================================================================== *)

Section OperationFacts.

Context {server : Type} {T : Transport server} {R : Render}.

Lemma make_request_no_content (method endpoint : string) (data : option payload)
      (st : state) (r : Response) (net' : server) :
  requests_request method (request_url endpoint) (auth (self st)) data (net st)
  = (Responded r, net') ->
  is_http_error r = false ->
  status_code r = 204%Z \/ text r = EmptyString ->
  _make_request method endpoint data st
  = (Ok JEmptyDict, mkState (self st) net' (out st)).
Proof.
  intros H He Hc. unfold _make_request. unfold request_url in H.
  rewrite H, He. destruct Hc as [-> | ->]; [reflexivity|].
  now rewrite orb_true_r.
Qed.

Lemma resolve_raises_ValueError (cached : cache) (s : string) (e : exn) :
  resolve_target cached s = Raise e -> exists msg, e = ValueError msg.
Proof.
  unfold resolve_target. destruct (lookup s cached) as [[d|l]|].
  - discriminate.
  - intros [= <-]. eauto.
  - destruct (find _ _); [discriminate|]. intros [= <-]. eauto.
Qed.

Lemma get_deck_raises_ValueError (cached : cache) (n : string) (e : exn) :
  get_deck cached n = Raise e -> exists msg, e = ValueError msg.
Proof.
  unfold get_deck. destruct (lookup n cached) as [[d|l]|]; try discriminate;
    intros [= <-]; eauto.
Qed.

(** What [get_cards] does after a successful resolution. *)
Lemma get_cards_resolved (s : string) (st : state)
      (tid : string) (by_ : resolved_by) :
  resolve_target (decks (self st)) s = Ok (tid, by_) ->
  exists r0 net',
    _make_request "GET" ("cards?deck-id=" ++ tid) None st
    = (r0, mkState (self st) net' (out st)) /\
    forall condensed,
    match r0 with
    | Raise _ =>
        exists msg, get_cards s condensed st
                    = (Raise (MochiAPIError msg None None),
                       mkState (self st) net' (out st))
    | Ok (JDict (Some (DocsList raw)) _) | Ok (JList raw) =>
        if condensed then
          match condense_all raw with
          | Ok cards => get_cards s condensed st
                        = (Ok cards, mkState (self st) net' (out st))
          | Raise _ =>
              exists msg, get_cards s condensed st
                          = (Raise (MochiAPIError msg None None),
                             mkState (self st) net' (out st))
          end
        else get_cards s condensed st
             = (Ok (map RawCard raw), mkState (self st) net' (out st))
    | Ok JEmptyDict =>
        get_cards s condensed st = (Ok [], mkState (self st) net' (out st))
    | Ok j =>
        exists msg, get_cards s condensed st
                    = (Raise (MochiAPIError msg None (Some (RJson j))),
                       mkState (self st) net' (out st))
    end.
Proof.
  intros Hr.
  destruct (make_request_frame "GET" ("cards?deck-id=" ++ tid) None st)
    as (r0 & net' & E & H).
  exists r0, net'. split; [exact E|]. intros condensed.
  unfold get_cards, bind, get_decks_attr, lift, try_except. rewrite Hr, E.
  destruct r0 as [j|e].
  - destruct j as [|[[raw|ty]|] o|raw|ty truth]; simpl;
      try (eexists; reflexivity); try reflexivity.
    + destruct condensed; simpl; [|reflexivity].
      destruct (condense_all raw) as [cards|e] eqn:C; [reflexivity|].
      destruct (ViewFacts.condense_all_raises _ _ C) as [m ->].
      eexists; reflexivity.
    + destruct condensed; simpl; [|reflexivity].
      destruct (condense_all raw) as [cards|e] eqn:C; [reflexivity|].
      destruct (ViewFacts.condense_all_raises _ _ C) as [m ->].
      eexists; reflexivity.
  - destruct H as [msg ->]. eexists. reflexivity.
Qed.

(** Every way [get_cards] can end. *)
Lemma get_cards_cases (s : string) (condensed : bool) (st : state) :
  exists r st',
    get_cards s condensed st = (r, st') /\ client_kept st st' /\
    match r with
    | Ok cards =>
        (exists t, resolve_target (decks (self st)) s = Ok t) /\
        (condensed = false -> exists raw, cards = map RawCard raw)
    | Raise e =>
        (exists msg, e = ValueError msg /\ st' = st /\
                     resolve_target (decks (self st)) s = Raise e) \/
        (exists msg rd, e = MochiAPIError msg None rd /\
                        exists t, resolve_target (decks (self st)) s = Ok t)
    end.
Proof.
  destruct (resolve_target (decks (self st)) s) as [[tid by_]|e] eqn:Hr.
  - destruct (get_cards_resolved s st tid by_ Hr) as (r0 & net' & E & H).
    specialize (H condensed).
    destruct r0 as [j|e].
    + destruct j as [|[[raw|ty]|] o|raw|ty truth].
      * eexists; eexists. split; [exact H|]. split; [now split|].
        split; [eauto|]. intros _. now exists [].
      * destruct condensed.
        -- destruct (condense_all raw) as [cards|e].
           ++ eexists; eexists. split; [exact H|]. split; [now split|].
              split; [eauto | discriminate].
           ++ destruct H as [msg H]. eexists; eexists. split; [exact H|].
              split; [now split|]. right. eauto.
        -- eexists; eexists. split; [exact H|]. split; [now split|].
           split; eauto.
      * destruct H as [msg H]. eexists; eexists. split; [exact H|].
        split; [now split|]. right. eauto.
      * destruct H as [msg H]. eexists; eexists. split; [exact H|].
        split; [now split|]. right. eauto.
      * destruct condensed.
        -- destruct (condense_all raw) as [cards|e].
           ++ eexists; eexists. split; [exact H|]. split; [now split|].
              split; [eauto | discriminate].
           ++ destruct H as [msg H]. eexists; eexists. split; [exact H|].
              split; [now split|]. right. eauto.
        -- eexists; eexists. split; [exact H|]. split; [now split|].
           split; eauto.
      * destruct H as [msg H]. eexists; eexists. split; [exact H|].
        split; [now split|]. right. eauto.
    + destruct H as [msg H]. eexists; eexists. split; [exact H|].
      split; [now split|]. right. eauto.
  - exists (Raise e), st. split.
    + unfold get_cards, bind, get_decks_attr, lift. now rewrite Hr.
    + split; [now split|]. left.
      destruct (resolve_raises_ValueError _ _ _ Hr) as [msg ->]. eauto.
Qed.

(** Every way [create_deck] can end. *)
Lemma create_deck_cases (name : string) (parent_id : option string) (st : state) :
  exists r0 net1,
    _make_request "POST" "decks" (Some (create_deck_payload name parent_id)) st
    = (r0, mkState (self st) net1 (out st)) /\
    match r0 with
    | Raise _ =>
        exists msg,
          create_deck name parent_id st
          = (Raise (MochiAPIError msg None None), mkState (self st) net1 (out st))
    | Ok j =>
        match creation_fields j with
        | None =>
            exists msg,
              create_deck name parent_id st
              = (Raise (MochiAPIError msg None (Some (RJson j))),
                 mkState (self st) net1 (out st))
        | Some (i, n, p) =>
            exists r1 net2 w,
              _load_decks_internal (mkState (self st) net1 (out st))
              = (r1, mkState (self st) net2 (out st ++ w)%list) /\
              match r1 with
              | Raise _ =>
                  exists msg,
                    create_deck name parent_id st
                    = (Raise (MochiAPIError msg None None),
                       mkState (self st) net2 (out st ++ w)%list)
              | Ok m =>
                  (exists l, m = deck_map (load_loop l)) /\
                  create_deck name parent_id st
                  = (Ok (match get_deck m n with
                         | Ok d => d
                         | Raise _ => mkDeck i n p
                         end),
                     mkState (mkMochiAPI (auth (self st)) m) net2 (out st ++ w)%list)
              end
        end
    end.
Proof.
  destruct (make_request_frame "POST" "decks"
              (Some (create_deck_payload name parent_id)) st)
    as (r0 & net1 & E & H).
  exists r0, net1. split; [exact E|].
  unfold create_deck, try_except, bind. rewrite E.
  destruct r0 as [j|e].
  - destruct j as [|docs o|raw|ty truth]; simpl;
      try (eexists; reflexivity).
    destruct (or_str (k_id o) (k__id o)) as [i|]; [|eexists; reflexivity].
    destruct (k_name o) as [n|]; [|eexists; reflexivity].
    simpl. destruct (i =? "") eqn:Ei; simpl; [eexists; reflexivity|].
    destruct (refresh_cases (mkState (self st) net1 (out st)))
      as (r1 & net2 & w & EL & C).
    simpl in EL, C. exists r1, net2, w. split; [exact EL|].
    destruct r1 as [m|e1].
    + destruct C as [Hl ->]. split; [exact Hl|].
      unfold get_decks_attr, lift. simpl.
      destruct (get_deck m n) as [d|e2] eqn:G; [reflexivity|].
      destruct (get_deck_raises_ValueError _ _ _ G) as [msg ->]. reflexivity.
    + destruct C as [[msg ->] ->]. eexists. reflexivity.
  - destruct H as [msg ->]. eexists. reflexivity.
Qed.

(** Every way [delete_deck] can end. *)
Lemma delete_deck_cases (deck_id : string) (st : state) :
  exists r st',
    delete_deck deck_id st = (r, st') /\
    match r with
    | Ok _ => exists l, decks (self st') = deck_map (load_loop l)
    | Raise e => self st' = self st /\ exists msg, e = MochiAPIError msg None None
    end.
Proof.
  unfold delete_deck, try_except, bind.
  destruct (make_request_frame "DELETE" ("decks/" ++ deck_id) None st)
    as (r0 & net1 & E & H).
  rewrite E. destruct r0 as [j|e].
  - destruct (refresh_cases (mkState (self st) net1 (out st)))
      as (r1 & net2 & w & _ & C).
    destruct r1 as [m|e1].
    + destruct C as [Hl ->]. eexists; eexists. split; [reflexivity|]. exact Hl.
    + destruct C as [[msg ->] ->]. eexists; eexists. split; [reflexivity|].
      simpl. eauto.
  - destruct H as [msg ->]. eexists; eexists. split; [reflexivity|]. simpl. eauto.
Qed.

End OperationFacts.

(* ===================================================================== *)
(** * Further properties of the operations *)
(* ===================================================================== *)

Section Operations.

Context {server : Type} {T : Transport server} {R : Render}.

(** X12. The item operations that write never touch the client: after
    [create_card], [Deck.add_card], [Deck.update_card] and
    [Deck.delete_card] the cache and the client object are as before, and
    whatever they raise is a [MochiAPIError] without status code. *)
Theorem item_operations_frame (st : state) :
  (forall deck_id content,
      client_kept st (snd (create_card deck_id content st)) /\
      api_error_only (fst (create_card deck_id content st))) /\
  (forall this f b,
      client_kept st (snd (Deck_add_card this f b st)) /\
      api_error_only (fst (Deck_add_card this f b st))) /\
  (forall card_id f b,
      client_kept st (snd (Deck_update_card card_id f b st)) /\
      api_error_only (fst (Deck_update_card card_id f b st))) /\
  (forall card_id,
      client_kept st (snd (Deck_delete_card card_id st)) /\
      api_error_only (fst (Deck_delete_card card_id st))).
Proof.
  assert (G : forall method endpoint data ctx ctx',
             client_kept st (snd (try_except (_make_request method endpoint data)
                                             (reraise ctx ctx') st)) /\
             api_error_only (fst (try_except (_make_request method endpoint data)
                                             (reraise ctx ctx') st))).
  { intros method endpoint data ctx ctx'. unfold try_except.
    destruct (make_request_frame method endpoint data st) as (r & net' & E & H).
    rewrite E. destruct r as [j|e]; simpl; [repeat split|].
    destruct H as [msg ->]. simpl. repeat split. }
  split; [|split; [|split]].
  - intros deck_id content. apply G.
  - intros this f b. apply G.
  - intros card_id f b. apply G.
  - intros card_id. unfold Deck_delete_card, try_except, bind.
    destruct (make_request_frame "DELETE" ("cards/" ++ card_id) None st)
      as (r & net' & E & H).
    rewrite E. destruct r as [j|e]; simpl; [repeat split|].
    destruct H as [msg ->]. simpl. repeat split.
Qed.

(** X13. Listing cards never touches the client.  [get_cards] raises
    either the [ValueError] of a failed resolution, and then nothing was
    requested and the state is unchanged, or, after a successful
    resolution, a [MochiAPIError] without status code.  [Deck.get_cards]
    raises nothing but a [MochiAPIError] without status code: a failed
    resolution of the deck's own id is wrapped too. *)
Theorem card_listing_errors (st : state) :
  (forall s condensed,
      client_kept st (snd (get_cards s condensed st)) /\
      match fst (get_cards s condensed st) with
      | Ok _ => exists t, resolve_target (decks (self st)) s = Ok t
      | Raise e =>
          (class_of e = ClsValueError /\
           resolve_target (decks (self st)) s = Raise e /\
           snd (get_cards s condensed st) = st) \/
          (class_of e = ClsMochiAPIError /\ status_code_of e = None /\
           exists t, resolve_target (decks (self st)) s = Ok t)
      end) /\
  (forall this condensed,
      client_kept st (snd (Deck_get_cards this condensed st)) /\
      api_error_only (fst (Deck_get_cards this condensed st))).
Proof.
  split.
  - intros s condensed.
    destruct (get_cards_cases s condensed st) as (r & st' & E & K & H).
    rewrite E. simpl. split; [exact K|].
    destruct r as [cards|e]; [exact (proj1 H)|].
    destruct H as [(msg & -> & -> & Hr)|(msg & rd & -> & Ht)]; [left|right];
      simpl; auto.
  - intros this condensed. unfold Deck_get_cards, try_except, bind.
    destruct (get_cards_cases (id this) false st) as (r & st' & E & K & H).
    rewrite E. destruct r as [cards|e].
    + destruct condensed; simpl; [|split; [exact K | exact I]].
      unfold lift. destruct (condense_all _) as [l|e] eqn:C; simpl;
        [split; [exact K | exact I]|].
      destruct (ViewFacts.condense_all_raises _ _ C) as [m ->]. simpl.
      split; [exact K | now split].
    + destruct H as [(msg & -> & -> & Hr)|(msg & rd & -> & Ht)]; simpl;
        (split; [exact K | now split]).
Qed.

(** X14. A card listing answered without a body, or with status 204, is
    an empty listing, not an error: for a deck that resolves, [get_cards]
    returns the empty list in both modes. *)
Theorem get_cards_no_content (st : state) (s tid : string) (by_ : resolved_by)
        (r : Response) (net' : server) (condensed : bool) :
  resolve_target (decks (self st)) s = Ok (tid, by_) ->
  requests_request "GET" (request_url ("cards?deck-id=" ++ tid))
                   (auth (self st)) None (net st)
  = (Responded r, net') ->
  is_http_error r = false ->
  status_code r = 204%Z \/ text r = EmptyString ->
  get_cards s condensed st = (Ok [], mkState (self st) net' (out st)).
Proof.
  intros Hr Hq He Hc.
  pose proof (make_request_no_content "GET" ("cards?deck-id=" ++ tid) None
                                      st r net' Hq He Hc) as E.
  destruct (get_cards_resolved s st tid by_ Hr) as (r0 & n0 & E0 & H).
  rewrite E in E0. injection E0 as <- <-. exact (H condensed).
Qed.

(** X15. When the card request returns a listing, under ['docs'] or as
    a bare list, [get_cards] with [condensed=False] returns its elements
    as they are; with [condensed=True] it returns one view per element, in
    order, when every element is an object whose content is a string or
    absent, and raises a [MochiAPIError] when some element is not. *)
Theorem get_cards_listing (st st1 : state) (s tid : string) (by_ : resolved_by)
        (j : json) (raw : list elem) :
  resolve_target (decks (self st)) s = Ok (tid, by_) ->
  _make_request "GET" ("cards?deck-id=" ++ tid) None st = (Ok j, st1) ->
  (exists o, j = JDict (Some (DocsList raw)) o) \/ j = JList raw ->
  get_cards s false st = (Ok (map RawCard raw), st1) /\
  (forall texts,
      map card_text raw = map Some texts ->
      get_cards s true st
      = (Ok (map (fun t => CondensedCard (condensed_view t)) texts), st1)) /\
  (forall e, In e raw -> card_text e = None ->
             exists msg, get_cards s true st
                         = (Raise (MochiAPIError msg None None), st1)).
Proof.
  intros Hr Hq Hj.
  destruct (get_cards_resolved s st tid by_ Hr) as (r0 & n0 & E0 & H).
  rewrite Hq in E0. injection E0 as <- ->.
  assert (Hf : get_cards s false st
               = (Ok (map RawCard raw), mkState (self st) n0 (out st)))
    by (destruct Hj as [[o ->] | ->]; exact (H false)).
  assert (Ht : match condense_all raw with
               | Ok cards => get_cards s true st
                             = (Ok cards, mkState (self st) n0 (out st))
               | Raise _ =>
                   exists msg, get_cards s true st
                               = (Raise (MochiAPIError msg None None),
                                  mkState (self st) n0 (out st))
               end)
    by (destruct Hj as [[o ->] | ->]; exact (H true)).
  split; [exact Hf|]. split.
  - intros texts Hx. now rewrite (ViewFacts.condense_all_ok _ _ Hx) in Ht.
  - intros e I He. destruct (ViewFacts.condense_all_fail _ _ I He) as [m C].
    now rewrite C in Ht.
Qed.

(** X16. The two ways to list the cards of a deck agree when the first
    succeeds: what [get_cards] returns for the id of the deck,
    [Deck.get_cards] returns too, in either mode, and ends in the same
    state. *)
Theorem deck_get_cards_agrees (st st' : state) (this : Deck) (condensed : bool)
        (cards : list card_view) :
  get_cards (id this) condensed st = (Ok cards, st') ->
  Deck_get_cards this condensed st = (Ok cards, st').
Proof.
  intros H.
  destruct (resolve_target (decks (self st)) (id this)) as [[tid by_]|e] eqn:Hr.
  2:{ unfold get_cards, bind, get_decks_attr, lift in H. rewrite Hr in H.
      discriminate. }
  destruct (get_cards_resolved (id this) st tid by_ Hr) as (r0 & n0 & E0 & G).
  pose proof (G condensed) as Gc. pose proof (G false) as Gf.
  assert (D : exists raw,
             get_cards (id this) false st = (Ok (map RawCard raw), st') /\
             (if condensed then condense_all raw = Ok cards
              else cards = map RawCard raw)).
  { destruct r0 as [j|e].
    - destruct j as [|[[raw|ty]|] o|raw|ty truth].
      + rewrite H in Gc. injection Gc as -> ->. exists []. split; [exact Gf|].
        now destruct condensed.
      + exists raw. destruct condensed.
        * destruct (condense_all raw) as [l|e]; [|destruct Gc; congruence].
          rewrite H in Gc. injection Gc as -> ->. now split.
        * rewrite H in Gc. injection Gc as -> ->. now split.
      + destruct Gc; congruence.
      + destruct Gc; congruence.
      + exists raw. destruct condensed.
        * destruct (condense_all raw) as [l|e]; [|destruct Gc; congruence].
          rewrite H in Gc. injection Gc as -> ->. now split.
        * rewrite H in Gc. injection Gc as -> ->. now split.
      + destruct Gc; congruence.
    - destruct Gc; congruence. }
  destruct D as (raw & Ef & Hc).
  unfold Deck_get_cards, try_except, bind. rewrite Ef.
  destruct condensed; [|now subst cards].
  unfold lift. rewrite map_map. simpl. rewrite map_id. now rewrite Hc.
Qed.

End Operations.

(** An empty deck, listed by name. *)
Lemma get_cards_no_content_witness :
  @get_cards script scripted_transport opaque_render "Spanish" true
     (mkState (mkMochiAPI ("key", EmptyString)
                          (deck_map (load_loop [deck_entry "id1" "Spanish"])))
              [Responded no_content_response] [])
  = (Ok [],
     mkState (mkMochiAPI ("key", EmptyString)
                         (deck_map (load_loop [deck_entry "id1" "Spanish"])))
             [] []).
Proof.
  apply (@get_cards_no_content script scripted_transport opaque_render
           (mkState (mkMochiAPI ("key", EmptyString)
                                (deck_map (load_loop [deck_entry "id1" "Spanish"])))
                    [Responded no_content_response] [])
           "Spanish" "id1" ByName no_content_response [] true);
    try reflexivity.
  now left.
Defined.

(** One card, listed by the name of its deck. *)
Lemma get_cards_listing_witness :
  @get_cards script scripted_transport opaque_render "Spanish" true
     (mkState (mkMochiAPI ("key", EmptyString)
                          (deck_map (load_loop [deck_entry "id1" "Spanish"])))
              [Responded (cards_response [card_entry ("Q1" ++ SEP ++ "A1")])] [])
  = (Ok [CondensedCard (mkFrontBack "Q1" "A1")],
     mkState (mkMochiAPI ("key", EmptyString)
                         (deck_map (load_loop [deck_entry "id1" "Spanish"])))
             [] []).
Proof.
  refine (proj1 (proj2
            (@get_cards_listing script scripted_transport opaque_render
               (mkState (mkMochiAPI ("key", EmptyString)
                                    (deck_map (load_loop [deck_entry "id1" "Spanish"])))
                        [Responded (cards_response [card_entry ("Q1" ++ SEP ++ "A1")])]
                        [])
               _ "Spanish" "id1" ByName _ [card_entry ("Q1" ++ SEP ++ "A1")]
               eq_refl eq_refl (or_introl (ex_intro _ no_fields eq_refl))))
            ["Q1" ++ SEP ++ "A1"] eq_refl).
Defined.

(** The same card, listed from the deck object. *)
Lemma deck_get_cards_agrees_witness :
  @Deck_get_cards script scripted_transport opaque_render
     (mkDeck "id1" "Spanish" PNone) true
     (mkState (mkMochiAPI ("key", EmptyString)
                          (deck_map (load_loop [deck_entry "id1" "Spanish"])))
              [Responded (cards_response [card_entry ("Q1" ++ SEP ++ "A1")])] [])
  = (Ok [CondensedCard (mkFrontBack "Q1" "A1")],
     mkState (mkMochiAPI ("key", EmptyString)
                         (deck_map (load_loop [deck_entry "id1" "Spanish"])))
             [] []).
Proof.
  exact (@deck_get_cards_agrees script scripted_transport opaque_render
           (mkState (mkMochiAPI ("key", EmptyString)
                                (deck_map (load_loop [deck_entry "id1" "Spanish"])))
                    [Responded (cards_response [card_entry ("Q1" ++ SEP ++ "A1")])] [])
           _ (mkDeck "id1" "Spanish" PNone) true _ eq_refl).
Defined.

Section Mutating.

Context {server : Type} {T : Transport server} {R : Render}.

(** X17. When the creation request succeeds but its answer is no object
    with a usable id and a name, [create_deck] raises a [MochiAPIError]
    that carries the answer as its response data; no refresh is requested
    and the client is as before. *)
Theorem create_deck_malformed_response (name : string) (parent_id : option string)
        (st st1 : state) (j : json) :
  _make_request "POST" "decks" (Some (create_deck_payload name parent_id)) st
  = (Ok j, st1) ->
  creation_fields j = None ->
  self st1 = self st /\
  exists msg,
    create_deck name parent_id st
    = (Raise (MochiAPIError msg None (Some (RJson j))), st1).
Proof.
  intros Hq Hf.
  destruct (create_deck_cases name parent_id st) as (r0 & net1 & E & H).
  rewrite Hq in E. injection E as <- ->. rewrite Hf in H.
  split; [reflexivity | exact H].
Qed.


(** X19. A mutation that fails leaves the client as it was.  When the
    creation request raises, [create_deck] raises a [MochiAPIError]
    without status code and the client is unchanged.  When the creation
    answer holds a usable id and a name, both strings, and [create_deck]
    raises, then the refresh raised, the error is a [MochiAPIError]
    without status code and the client is unchanged.  Whenever
    [delete_deck] raises, the error is a [MochiAPIError] without status
    code and the client is unchanged; whenever it returns, the deletion
    request succeeded and the cache is the one of the list that the
    listing request made after it returned. *)
Theorem mutations_keep_cache_on_failure (st : state) :
  (forall new_name parent_id e0 st1,
      _make_request "POST" "decks" (Some (create_deck_payload new_name parent_id)) st
      = (Raise e0, st1) ->
      self st1 = self st /\
      exists msg, create_deck new_name parent_id st
                  = (Raise (MochiAPIError msg None None), st1)) /\
  (forall new_name parent_id j st1 i n p e st',
      _make_request "POST" "decks" (Some (create_deck_payload new_name parent_id)) st
      = (Ok j, st1) ->
      creation_fields j = Some (i, n, p) ->
      create_deck new_name parent_id st = (Raise e, st') ->
      self st' = self st /\ api_error_only (@Raise Deck e) /\
      exists e1, refresh_decks st1 = (Raise e1, st')) /\
  (forall deck_id e st',
      delete_deck deck_id st = (Raise e, st') ->
      self st' = self st /\ api_error_only (@Raise unit e)) /\
  (forall deck_id st',
      delete_deck deck_id st = (Ok tt, st') ->
      exists j0 st1 j l,
        _make_request "DELETE" ("decks/" ++ deck_id) None st = (Ok j0, st1) /\
        fst (_make_request "GET" "decks" None st1) = Ok j /\
        listing_of j = Some l /\
        decks (self st') = deck_map (load_loop l)).
Proof.
  split; [|split; [|split]].
  - intros new_name parent_id e0 st1 Hq.
    destruct (create_deck_cases new_name parent_id st) as (r0 & net1 & E & H).
    rewrite Hq in E. injection E as <- ->. split; [reflexivity | exact H].
  - intros new_name parent_id j st1 i n p e st' Hq Hf Hc.
    destruct (create_deck_cases new_name parent_id st) as (r0 & net1 & E & H).
    rewrite Hq in E. injection E as <- ->. rewrite Hf in H.
    destruct H as (r1 & net2 & w & EL & H). destruct r1 as [m|e1].
    + destruct H as [_ H]. congruence.
    + destruct H as [msg H]. rewrite Hc in H. injection H as -> ->.
      split; [reflexivity|]. split; [now split|].
      exists e1. unfold refresh_decks, bind. now rewrite EL.
  - intros deck_id e st' Hd.
    destruct (delete_deck_cases deck_id st) as (r & st2 & E & H).
    rewrite Hd in E. injection E as <- <-. destruct H as [Hs [msg ->]].
    repeat split. exact Hs.
  - intros deck_id st' Hd. unfold delete_deck, try_except, bind in Hd.
    destruct (_make_request "DELETE" ("decks/" ++ deck_id) None st)
      as [[j0|e0] st1] eqn:E.
    + destruct (refresh_decks st1) as [[u|e1] st2] eqn:Er.
      * destruct u. injection Hd as <-.
        destruct (refresh_from_request _ _ Er) as (j & l & Hj & Hl & Hc).
        exists j0, st1, j, l. auto.
      * destruct e1 as [m1|m1|m1|m1 [c1|] r1]; simpl in Hd; try discriminate.
        destruct (c1 =? 404)%Z; discriminate.
    + destruct e0 as [m0|m0|m0|m0 [c0|] r0]; simpl in Hd; try discriminate.
      destruct (c0 =? 404)%Z; discriminate.
Qed.

(** X20. The refresh succeeds only when the listing body is an object
    with a list under ['docs'] or a bare list, and then the cache is the
    one of that list.  For every other body, the empty object of a
    response without content included, the refresh raises a
    [MochiAPIError] without status code and the client is unchanged. *)
Theorem listing_shapes (st st1 : state) (j : json) :
  _make_request "GET" "decks" None st = (Ok j, st1) ->
  (listing_of j = None ->
   self st1 = self st /\
   exists msg, refresh_decks st = (Raise (MochiAPIError msg None None), st1)) /\
  (forall st',
      refresh_decks st = (Ok tt, st') ->
      exists l, listing_of j = Some l /\
                decks (self st') = deck_map (load_loop l)).
Proof.
  intros Hq. split.
  - intros Hn.
    destruct (make_request_frame "GET" "decks" None st) as (r0 & net1 & E & _).
    rewrite Hq in E. injection E as <- ->. split; [reflexivity|].
    unfold refresh_decks, _load_decks_internal, bind, try_except. rewrite Hq.
    destruct j as [|[[l|ty]|] o|l|ty truth]; simpl in *; try discriminate;
      eexists; reflexivity.
  - intros st' H.
    destruct (refresh_from_request st st' H) as (j' & l & Hj & Hl & Hd).
    rewrite Hq in Hj. injection Hj as <-. eauto.
Qed.

(** X21. [MochiAPI.__init__] with an empty key raises [ValueError]
    without a request.  With a non-empty key it adds nothing to a failure
    of the first load: it raises an error exactly when the load raises
    it.  The client it returns has a non-empty key, holds the key with an
    empty password, and its cache meets the invariant and is the one of
    the list the first listing request returned. *)
Theorem MochiAPI_init_cases (api_key : string) (net0 : server) :
  (api_key = EmptyString ->
   exists msg, fst (MochiAPI_init api_key net0) = Raise (ValueError msg) /\
               net (snd (MochiAPI_init api_key net0)) = net0) /\
  (api_key <> EmptyString ->
   forall e,
     fst (MochiAPI_init api_key net0) = Raise e <->
     fst (_load_decks_internal (init_state api_key net0)) = Raise e) /\
  (forall api,
      fst (MochiAPI_init api_key net0) = Ok api ->
      api_key <> EmptyString /\ auth api = (api_key, EmptyString) /\
      cache_ok (decks api) /\ self (snd (MochiAPI_init api_key net0)) = api /\
      exists j l,
        fst (_make_request "GET" "decks" None (init_state api_key net0)) = Ok j /\
        listing_of j = Some l /\ decks api = deck_map (load_loop l)).
Proof.
  unfold MochiAPI_init. fold (init_state api_key net0).
  fold (@refresh_decks server T R).
  destruct (refresh_cases (init_state api_key net0)) as (r & net' & w & EL & C).
  rewrite EL. simpl fst.
  destruct (String.eqb_spec api_key EmptyString) as [->|N].
  - split; [intros _; eexists; split; reflexivity|].
    split; [intros H; now contradiction H|]. discriminate.
  - split; [intros H; contradiction|].
    destruct r as [m|e0].
    + destruct C as [_ E]. rewrite E. simpl.
      split; [intros _ e; split; discriminate|].
      intros api [= <-]. simpl. split; [exact N|]. split; [reflexivity|].
      destruct (refresh_from_request _ _ E) as (j & l & Hj & Hl & Hd).
      simpl in Hd. subst m.
      split; [apply ResolveFacts.loaded_cache_ok|]. split; [reflexivity|].
      exists j, l. auto.
    + destruct C as [_ E]. rewrite E. simpl.
      split; [intros _ e; simpl; split; intros [= ->]; reflexivity | discriminate].
Qed.

(** X22. The text of a [MochiAPIError] starts with its message.  Without
    truthy response data it is the message, followed by the status code
    when that is not zero; with truthy response data it ends with a
    snippet of the data of at most 503 characters. *)
Theorem MochiAPIError_str_shape (msg : string) (c : option Z) (r : option rdata) :
  (exists suffix, MochiAPIError_str msg c r = msg ++ suffix) /\
  (rdata_truthy r = false ->
   MochiAPIError_str msg c r
   = match c with
     | Some z => if (z =? 0)%Z then msg
                 else msg ++ " (Status Code: " ++ str_Z z ++ ")"
     | None => msg
     end) /\
  (rdata_truthy r = true ->
   exists base snippet,
     MochiAPIError_str msg c r = base ++ LF ++ "API Response Snippet: " ++ snippet /\
     (String.length snippet <= 503)%nat).
Proof.
  unfold MochiAPIError_str.
  set (base := match c with
               | Some z => if (z =? 0)%Z then msg
                           else msg ++ " (Status Code: " ++ str_Z z ++ ")"
               | None => msg
               end).
  assert (B : exists s0, base = msg ++ s0).
  { subst base. destruct c as [z|]; [destruct (z =? 0)%Z|].
    - exists EmptyString. now rewrite StrFacts.append_nil_r.
    - eexists. reflexivity.
    - exists EmptyString. now rewrite StrFacts.append_nil_r. }
  destruct B as [s0 B].
  split; [|split].
  - destruct r as [rd|]; [destruct (rdata_truthy (Some rd))|].
    + rewrite B, StrFacts.append_assoc. eexists. reflexivity.
    + eauto.
    + eauto.
  - intros H. destruct r as [rd|]; [now rewrite H | reflexivity].
  - intros H. destruct r as [rd|]; [|discriminate]. rewrite H.
    exists base. eexists. split; [reflexivity|].
    destruct (500 <? String.length (json_dumps rd))%nat eqn:L.
    + rewrite StrFacts.length_append.
      pose proof (ViewFacts.length_take 500 (json_dumps rd)). simpl. lia.
    + apply Nat.ltb_ge in L. lia.
Qed.

End Mutating.

(** The creation answer has an empty id. *)
Lemma create_deck_malformed_response_witness :
  exists msg,
    @create_deck script scripted_transport opaque_render "Spanish" None
       (mkState (mkMochiAPI ("key", EmptyString) [])
                [Responded (created_response "" "Spanish")] [])
    = (Raise (MochiAPIError msg None
                (Some (RJson (JDict None
                                (mkObj (Some "") None (Some "Spanish")
                                       PNone PNone PNone None None None))))),
       mkState (mkMochiAPI ("key", EmptyString) []) [] []).
Proof.
  exact (proj2 (@create_deck_malformed_response script scripted_transport
                  opaque_render "Spanish" None
                  (mkState (mkMochiAPI ("key", EmptyString) [])
                           [Responded (created_response "" "Spanish")] [])
                  _ _ eq_refl eq_refl)).
Defined.


(** A deletion answered with HTTP 404. *)
Lemma mutations_keep_cache_on_failure_witness :
  self (snd (@delete_deck script scripted_transport opaque_render "d1"
               (mkState (mkMochiAPI ("key", EmptyString)
                                    (deck_map (load_loop two_namesakes)))
                        [Responded not_found_response] [])))
  = mkMochiAPI ("key", EmptyString) (deck_map (load_loop two_namesakes)).
Proof.
  exact (proj1 (proj1 (proj2 (proj2
           (@mutations_keep_cache_on_failure script scripted_transport opaque_render
              (mkState (mkMochiAPI ("key", EmptyString)
                                   (deck_map (load_loop two_namesakes)))
                       [Responded not_found_response] []))))
           "d1" _ _ eq_refl)).
Defined.

(** A listing request answered without a body. *)
Lemma listing_shapes_witness :
  exists msg,
    @refresh_decks script scripted_transport opaque_render
       (mkState (mkMochiAPI ("key", EmptyString)
                            (deck_map (load_loop two_namesakes)))
                [Responded no_content_response] [])
    = (Raise (MochiAPIError msg None None),
       mkState (mkMochiAPI ("key", EmptyString)
                           (deck_map (load_loop two_namesakes))) [] []).
Proof.
  exact (proj2 (proj1 (@listing_shapes script scripted_transport opaque_render
                  (mkState (mkMochiAPI ("key", EmptyString)
                                       (deck_map (load_loop two_namesakes)))
                           [Responded no_content_response] [])
                  _ JEmptyDict eq_refl) eq_refl)).
Defined.

(** Construction with an empty key. *)
Lemma MochiAPI_init_cases_witness :
  exists msg,
    fst (@MochiAPI_init script scripted_transport opaque_render EmptyString [])
    = Raise (ValueError msg) /\
    net (snd (@MochiAPI_init script scripted_transport opaque_render EmptyString []))
    = [].
Proof.
  exact (proj1 (@MochiAPI_init_cases script scripted_transport opaque_render
                  EmptyString []) eq_refl).
Defined.

(** An error with a status code and no response data. *)
Lemma MochiAPIError_str_shape_witness :
  @MochiAPIError_str opaque_render "Boom" (Some 404%Z) None
  = "Boom (Status Code: 404)".
Proof.
  exact (proj1 (proj2 (@MochiAPIError_str_shape opaque_render
                         "Boom" (Some 404%Z) None)) eq_refl).
Defined.
